(** * Dual N-Back: the trial engine of [DualNBackApp]

    A shallow embedding of the scoring engine of the React component
    [DualNBackApp] (stimulus stream, response handling, miss timer, block-end
    difficulty rule, accuracy figures), together with the properties of the
    engine's specification that were checked against it.

    Modelling conventions.
    - The React state cells of the component form the record [State]; each
      [setX] of the source is the setter [setX] below.  An event handler runs
      against the bindings of the latest committed render, and its batched
      updates are committed before the next event is handled.
    - A [setTimeout] callback is a closure: it keeps the bindings of the render
      in which it was created.  [MissTimer render next] therefore stores that
      whole render; [setTally(prev => ...)] inside it still receives the
      latest tally.
    - [useInterval] calls [savedCallback.current()] and discards what the
      callback returns, so the [() => clearTimeout(missTimer)] returned by the
      tick callback is never run: a scheduled timer stays pending until it
      fires.
    - JavaScript numbers that hold counters, indices and settings are modelled
      by [Z].  The accuracy quotients are modelled by exact rationals [Q]; for
      counters below 2^48 the IEEE-754 quotient compares with the literals
      0.75 and 0.55 exactly as the rational quotient does.
    - [Math.random] is modelled by its outcome: a tick carries the two
      [randInt] results. *)

From Stdlib Require Import ZArith List Bool String QArith Lia.
Import ListNotations.
Open Scope Z_scope.

(** ** Data model *)

Definition LETTER_POOL : list string :=
  ["A"; "E"; "I"; "O"; "U"; "B"; "K"; "M"; "P"; "S"; "T"]%string.
Definition GRID_SIZE : Z := 3.
Definition DEFAULT_BLOCK_LEN : Z := 20.

Record Stimulus := mkStimulus { pos : Z; letter : string }.

(** [generateNextStimulus()], with [rp = randInt(GRID_SIZE * GRID_SIZE)] and
    [rl = randInt(LETTER_POOL.length)]. *)
Definition generateNextStimulus (rp rl : nat) : Stimulus :=
  {| pos := Z.of_nat rp; letter := nth rl LETTER_POOL ""%string |}.

Record Tally := mkTally {
  posHits : Z; posMisses : Z; posFalse : Z;
  sndHits : Z; sndMisses : Z; sndFalse : Z }.

Definition emptyTally : Tally := mkTally 0 0 0 0 0 0.

Inductive Kind := KPos | KSnd.

Record State := mkState {
  running : bool;
  n : Z;
  speedMs : Z;
  blockLen : Z;
  trialIdx : Z;
  stream : list Stimulus;
  current : option Stimulus;
  tally : Tally;
  allowPressPos : bool;
  allowPressSnd : bool;
  audioEnabled : bool;
  useSpeech : bool;
  voice : option string;
  lang : string }.

(** The [useState] initial values. *)
Definition initialState : State :=
  {| running := false; n := 2; speedMs := 2500; blockLen := DEFAULT_BLOCK_LEN;
     trialIdx := 0; stream := []; current := None; tally := emptyTally;
     allowPressPos := true; allowPressSnd := true;
     audioEnabled := false; useSpeech := false; voice := None;
     lang := "en-US"%string |}.

(** *** State setters *)

Definition setRunning (v : bool) (s : State) : State :=
  mkState v (n s) (speedMs s) (blockLen s) (trialIdx s) (stream s) (current s)
          (tally s) (allowPressPos s) (allowPressSnd s) (audioEnabled s)
          (useSpeech s) (voice s) (lang s).
Definition setN (v : Z) (s : State) : State :=
  mkState (running s) v (speedMs s) (blockLen s) (trialIdx s) (stream s)
          (current s) (tally s) (allowPressPos s) (allowPressSnd s)
          (audioEnabled s) (useSpeech s) (voice s) (lang s).
Definition setSpeedMs (v : Z) (s : State) : State :=
  mkState (running s) (n s) v (blockLen s) (trialIdx s) (stream s) (current s)
          (tally s) (allowPressPos s) (allowPressSnd s) (audioEnabled s)
          (useSpeech s) (voice s) (lang s).
Definition setBlockLen (v : Z) (s : State) : State :=
  mkState (running s) (n s) (speedMs s) v (trialIdx s) (stream s) (current s)
          (tally s) (allowPressPos s) (allowPressSnd s) (audioEnabled s)
          (useSpeech s) (voice s) (lang s).
Definition setTrialIdx (v : Z) (s : State) : State :=
  mkState (running s) (n s) (speedMs s) (blockLen s) v (stream s) (current s)
          (tally s) (allowPressPos s) (allowPressSnd s) (audioEnabled s)
          (useSpeech s) (voice s) (lang s).
Definition setStream (v : list Stimulus) (s : State) : State :=
  mkState (running s) (n s) (speedMs s) (blockLen s) (trialIdx s) v (current s)
          (tally s) (allowPressPos s) (allowPressSnd s) (audioEnabled s)
          (useSpeech s) (voice s) (lang s).
Definition setCurrent (v : option Stimulus) (s : State) : State :=
  mkState (running s) (n s) (speedMs s) (blockLen s) (trialIdx s) (stream s) v
          (tally s) (allowPressPos s) (allowPressSnd s) (audioEnabled s)
          (useSpeech s) (voice s) (lang s).
Definition setTally (v : Tally) (s : State) : State :=
  mkState (running s) (n s) (speedMs s) (blockLen s) (trialIdx s) (stream s)
          (current s) v (allowPressPos s) (allowPressSnd s) (audioEnabled s)
          (useSpeech s) (voice s) (lang s).
Definition setAllowPressPos (v : bool) (s : State) : State :=
  mkState (running s) (n s) (speedMs s) (blockLen s) (trialIdx s) (stream s)
          (current s) (tally s) v (allowPressSnd s) (audioEnabled s)
          (useSpeech s) (voice s) (lang s).
Definition setAllowPressSnd (v : bool) (s : State) : State :=
  mkState (running s) (n s) (speedMs s) (blockLen s) (trialIdx s) (stream s)
          (current s) (tally s) (allowPressPos s) v (audioEnabled s)
          (useSpeech s) (voice s) (lang s).
Definition setAudioEnabled (v : bool) (s : State) : State :=
  mkState (running s) (n s) (speedMs s) (blockLen s) (trialIdx s) (stream s)
          (current s) (tally s) (allowPressPos s) (allowPressSnd s) v
          (useSpeech s) (voice s) (lang s).
Definition setUseSpeech (v : bool) (s : State) : State :=
  mkState (running s) (n s) (speedMs s) (blockLen s) (trialIdx s) (stream s)
          (current s) (tally s) (allowPressPos s) (allowPressSnd s)
          (audioEnabled s) v (voice s) (lang s).
Definition setVoice (v : option string) (s : State) : State :=
  mkState (running s) (n s) (speedMs s) (blockLen s) (trialIdx s) (stream s)
          (current s) (tally s) (allowPressPos s) (allowPressSnd s)
          (audioEnabled s) (useSpeech s) v (lang s).
Definition setLang (v : string) (s : State) : State :=
  mkState (running s) (n s) (speedMs s) (blockLen s) (trialIdx s) (stream s)
          (current s) (tally s) (allowPressPos s) (allowPressSnd s)
          (audioEnabled s) (useSpeech s) (voice s) v.

(** *** Tally updates: [upd.x += 1] on a copy of [prev] *)

Definition incPosHits (t : Tally) : Tally :=
  mkTally (posHits t + 1) (posMisses t) (posFalse t) (sndHits t) (sndMisses t) (sndFalse t).
Definition incPosMisses (t : Tally) : Tally :=
  mkTally (posHits t) (posMisses t + 1) (posFalse t) (sndHits t) (sndMisses t) (sndFalse t).
Definition incPosFalse (t : Tally) : Tally :=
  mkTally (posHits t) (posMisses t) (posFalse t + 1) (sndHits t) (sndMisses t) (sndFalse t).
Definition incSndHits (t : Tally) : Tally :=
  mkTally (posHits t) (posMisses t) (posFalse t) (sndHits t + 1) (sndMisses t) (sndFalse t).
Definition incSndMisses (t : Tally) : Tally :=
  mkTally (posHits t) (posMisses t) (posFalse t) (sndHits t) (sndMisses t + 1) (sndFalse t).
Definition incSndFalse (t : Tally) : Tally :=
  mkTally (posHits t) (posMisses t) (posFalse t) (sndHits t) (sndMisses t) (sndFalse t + 1).

(** ** Match detection

    The source has no separate match function: the same two expressions occur
    in [handlePress] and in the miss timer.  [stream[i]?.pos === s.pos] is
    [false] when [stream[i]] is [undefined]. *)

Definition at_index {A : Type} (l : list A) (i : Z) : option A :=
  if i <? 0 then None else nth_error l (Z.to_nat i).

Definition samePos (o : option Stimulus) (s : Stimulus) : bool :=
  match o with Some p => pos p =? pos s | None => false end.

Definition sameLetter (o : option Stimulus) (s : Stimulus) : bool :=
  match o with Some p => String.eqb (letter p) (letter s) | None => false end.

(** [prevIdx >= 0 && stream[prevIdx]?.pos === cur.pos] *)
Definition posMatchAt (str : list Stimulus) (prevIdx : Z) (cur : Stimulus) : bool :=
  (0 <=? prevIdx) && samePos (at_index str prevIdx) cur.

(** [prevIdx >= 0 && stream[prevIdx]?.letter === cur.letter] *)
Definition sndMatchAt (str : list Stimulus) (prevIdx : Z) (cur : Stimulus) : bool :=
  (0 <=? prevIdx) && sameLetter (at_index str prevIdx) cur.

(** ** Event handlers *)

(** [resetBlock(nextN?)] *)
Definition resetBlock (nextN : option Z) (s : State) : State :=
  let s1 :=
    setAllowPressSnd true (setAllowPressPos true (setTally emptyTally
      (setCurrent None (setStream [] (setTrialIdx 0 s))))) in
  match nextN with
  | Some v => setN (Z.max 1 v) s1
  | None => s1
  end.

(** [start()]; [unlockAudioOnce] only touches the audio devices. *)
Definition start (s : State) : State :=
  setRunning true (resetBlock None (setAudioEnabled true s)).

(** [stop()] *)
Definition stop (s : State) : State :=
  setCurrent None (setRunning false s).

(** The updater passed to [setTally] by [handlePress]. *)
Definition pressUpdater (kind : Kind) (s : State) (cur : Stimulus) (prev : Tally) : Tally :=
  let idx := Z.of_nat (List.length (stream s)) - 1 in
  let prevIdx := idx - n s in
  let posMatch := posMatchAt (stream s) prevIdx cur in
  let sndMatch := sndMatchAt (stream s) prevIdx cur in
  match kind with
  | KPos =>
      if negb (allowPressPos s) then prev
      else if posMatch then incPosHits prev else incPosFalse prev
  | KSnd =>
      if negb (allowPressSnd s) then prev
      else if sndMatch then incSndHits prev else incSndFalse prev
  end.

(** [handlePress(kind)] *)
Definition handlePress (kind : Kind) (s : State) : State :=
  match current s with
  | None => s
  | Some cur =>
      let s1 := setTally (pressUpdater kind s cur (tally s)) s in
      match kind with
      | KPos => setAllowPressPos false s1
      | KSnd => setAllowPressSnd false s1
      end
  end.

(** *** Accuracy figures *)

(** [d ? (h / d) : 0] *)
Definition ratio (h d : Z) : Q :=
  if d =? 0 then 0%Q else (inject_Z h / inject_Z d)%Q.

Definition posAttempts (t : Tally) : Z := posHits t + posMisses t.
Definition sndAttempts (t : Tally) : Z := sndHits t + sndMisses t.
Definition posAcc (t : Tally) : Q := ratio (posHits t) (posAttempts t).
Definition sndAcc (t : Tally) : Q := ratio (sndHits t) (sndAttempts t).
Definition combinedAttempts (t : Tally) : Z := posAttempts t + sndAttempts t.
Definition combinedHits (t : Tally) : Z := posHits t + sndHits t.
Definition combinedAcc (t : Tally) : Q := ratio (combinedHits t) (combinedAttempts t).

(** [acc >= 0.75] and [acc < 0.55] *)
Definition geThreshold (acc : Q) : bool := Qle_bool (75 # 100) acc.
Definition ltThreshold (acc : Q) : bool := negb (Qle_bool (55 # 100) acc).

(** The block-end branch of the interval callback: the [nextN] handed to
    [resetBlock] 400 ms later. *)
Definition blockEndNextN (t : Tally) (curN : Z) : Z :=
  let posAtt := posHits t + posMisses t in
  let sndAtt := sndHits t + sndMisses t in
  let combAttempts := posAtt + sndAtt in
  let combHits := posHits t + sndHits t in
  let acc := ratio combHits combAttempts in
  if geThreshold acc then curN + 1
  else if ltThreshold acc then Z.max 1 (curN - 1)
  else curN.

(** ** Timers *)

Inductive Timer :=
| MissTimer (render : State) (next : Stimulus)
| ResetTimer (nextN : Z).


(** The updater passed to [setTally] by the miss timer; [render] holds the
    bindings captured when the timer was created. *)
Definition missUpdater (render : State) (next : Stimulus) (prev : Tally) : Tally :=
  let indexForMiss := Z.of_nat (List.length (stream render)) in
  let posMatch := posMatchAt (stream render) (indexForMiss - n render) next in
  let sndMatch := sndMatchAt (stream render) (indexForMiss - n render) next in
  let upd := prev in
  let upd := if posMatch && allowPressPos render then incPosMisses upd else upd in
  let upd := if sndMatch && allowPressSnd render then incSndMisses upd else upd in
  upd.

Definition fireTimer (t : Timer) (s : State) : State :=
  match t with
  | MissTimer render next => setTally (missUpdater render next (tally s)) s
  | ResetTimer nextN => resetBlock (Some nextN) s
  end.

(** The interval callback; returns the new state and the timers it
    schedules. *)
Definition tick (next : Stimulus) (s : State) : State * list Timer :=
  if negb (running s) then (s, [])
  else if blockLen s <=? trialIdx s then
    (s, [ResetTimer (blockEndNextN (tally s) (n s))])
  else
    let s' :=
      setAllowPressSnd true (setAllowPressPos true
        (setTrialIdx (trialIdx s + 1)
          (setCurrent (Some next) (setStream (stream s ++ [next]) s)))) in
    (s', [MissTimer s next]).

(** ** The component with its pending timers *)

Record World := mkWorld { ui : State; timers : list Timer }.

Definition initialWorld : World := mkWorld initialState [].

Inductive Event :=
| Start
| Stop
| ResetBlockButton
| Tick (rp rl : nat)
| Press (kind : Kind)
| Timeout (k : nat)
| ChangeN (v : Z)
| ChangeSpeedMs (v : Z)
| ChangeBlockLen (v : Z)
| ChangeUseSpeech (v : bool)
| ChangeVoice (v : option string)
| ChangeLang (v : string).

Fixpoint remove_nth {A : Type} (k : nat) (l : list A) : list A :=
  match l, k with
  | [], _ => []
  | _ :: l', O => l'
  | x :: l', S k' => x :: remove_nth k' l'
  end.

(** One event of the component.  [Timeout k] fires the [k]-th pending timer.
    The two match buttons are [disabled] while not running; the interval only
    exists while running.  A [Change...] event of a numeric setting carries
    the integer that [parseInt] read from the input field. *)
Definition step (w : World) (e : Event) : World :=
  match e with
  | Start => mkWorld (start (ui w)) (timers w)
  | Stop => mkWorld (stop (ui w)) (timers w)
  | ResetBlockButton => mkWorld (resetBlock None (ui w)) (timers w)
  | Tick rp rl =>
      let '(s', ts) := tick (generateNextStimulus rp rl) (ui w) in
      mkWorld s' (timers w ++ ts)
  | Press kind =>
      if running (ui w) then mkWorld (handlePress kind (ui w)) (timers w) else w
  | Timeout k =>
      match nth_error (timers w) k with
      | Some t => mkWorld (fireTimer t (ui w)) (remove_nth k (timers w))
      | None => w
      end
  | ChangeN v => mkWorld (setN (Z.max 1 v) (ui w)) (timers w)
  | ChangeSpeedMs v => mkWorld (setSpeedMs (Z.max 300 v) (ui w)) (timers w)
  | ChangeBlockLen v => mkWorld (setBlockLen (Z.max 8 v) (ui w)) (timers w)
  | ChangeUseSpeech v => mkWorld (setUseSpeech v (ui w)) (timers w)
  | ChangeVoice v => mkWorld (setVoice v (ui w)) (timers w)
  | ChangeLang v => mkWorld (setLang v (ui w)) (timers w)
  end.

Definition run (w : World) (es : list Event) : World := fold_left step es w.

(** Worlds the component can be in. *)
Inductive reachable : World -> Prop :=
| reachable_init : reachable initialWorld
| reachable_step w e : reachable w -> reachable (step w e).

Definition allowPress (kind : Kind) (s : State) : bool :=
  match kind with
  | KPos => allowPressPos s
  | KSnd => allowPressSnd s
  end.

(** The ground truth [handlePress] computes for the current stimulus, and the
    outcome it records on an open channel. *)
Definition pressMatch (kind : Kind) (s : State) (cur : Stimulus) : bool :=
  let prevIdx := Z.of_nat (List.length (stream s)) - 1 - n s in
  match kind with
  | KPos => posMatchAt (stream s) prevIdx cur
  | KSnd => sndMatchAt (stream s) prevIdx cur
  end.

Definition recordPress (kind : Kind) (isMatch : bool) (t : Tally) : Tally :=
  match kind, isMatch with
  | KPos, true => incPosHits t
  | KPos, false => incPosFalse t
  | KSnd, true => incSndHits t
  | KSnd, false => incSndFalse t
  end.

(** *** Uninterrupted blocks

    A block runs from a reset to the tick that finds [trialIdx >= blockLen].
    In between, the events of an uninterrupted block are trial ticks, presses,
    miss-timer expiries and changes of settings other than [n]. *)

Definition isMissTimer (t : Timer) : bool :=
  match t with MissTimer _ _ => true | ResetTimer _ => false end.

Definition blockEvent (w : World) (e : Event) : bool :=
  match e with
  | Tick _ _ => running (ui w) && (trialIdx (ui w) <? blockLen (ui w))
  | Press _ => true
  | Timeout k =>
      match nth_error (timers w) k with
      | Some t => isMissTimer t
      | None => false
      end
  | ChangeSpeedMs _ | ChangeBlockLen _ | ChangeUseSpeech _
  | ChangeVoice _ | ChangeLang _ => true
  | Start | Stop | ResetBlockButton | ChangeN _ => false
  end.

Fixpoint blockRun (w : World) (es : list Event) : option World :=
  match es with
  | [] => Some w
  | e :: es' => if blockEvent w e then blockRun (step w e) es' else None
  end.

(** The world right after a reset, with no miss timer of an earlier block
    still pending. *)
Definition blockStart (w : World) : Prop :=
  trialIdx (ui w) = 0 /\ stream (ui w) = [] /\ current (ui w) = None /\
  tally (ui w) = emptyTally /\ 1 <= n (ui w) /\
  forallb (fun t => negb (isMissTimer t)) (timers w) = true.

(** What a pending timer will add to [posMisses] / [sndMisses] when it
    fires. *)
Definition posMissDue (t : Timer) : Z :=
  match t with
  | MissTimer render next =>
      let indexForMiss := Z.of_nat (List.length (stream render)) in
      if posMatchAt (stream render) (indexForMiss - n render) next
         && allowPressPos render then 1 else 0
  | ResetTimer _ => 0
  end.

Definition sndMissDue (t : Timer) : Z :=
  match t with
  | MissTimer render next =>
      let indexForMiss := Z.of_nat (List.length (stream render)) in
      if sndMatchAt (stream render) (indexForMiss - n render) next
         && allowPressSnd render then 1 else 0
  | ResetTimer _ => 0
  end.

Definition sumZ (l : list Z) : Z := fold_right Z.add 0 l.


(** One unit of slack while a trial has started and its channel is open. *)
Definition openUnit (s : State) (allow : bool) : Z :=
  if (0 <? trialIdx s) && allow then 1 else 0.

(** The invariant of an uninterrupted block.  Hits: every trial of index at
    least [n] accounts for at most one hit, and the trial in flight has not
    yet produced one while its channel is open.  Misses: those recorded plus
    those the pending timers will still record are at most one for each trial
    of index at least [n].  Attempts: hits and misses, recorded or still due,
    stay within the trial counter, with one unit to spare while the channel
    of the trial in flight is open. *)
Definition blockInv (w : World) : Prop :=
  let s := ui w in
  1 <= n s /\
  trialIdx s = Z.of_nat (List.length (stream s)) /\
  posHits (tally s) <= Z.max 0 (trialIdx s - n s) /\
  sndHits (tally s) <= Z.max 0 (trialIdx s - n s) /\
  (allowPressPos s = true -> current s <> None ->
     posHits (tally s) <= Z.max 0 (trialIdx s - 1 - n s)) /\
  (allowPressSnd s = true -> current s <> None ->
     sndHits (tally s) <= Z.max 0 (trialIdx s - 1 - n s)) /\
  posMisses (tally s) + sumZ (map posMissDue (timers w)) <= Z.max 0 (trialIdx s - n s) /\
  sndMisses (tally s) + sumZ (map sndMissDue (timers w)) <= Z.max 0 (trialIdx s - n s) /\
  posHits (tally s) + posMisses (tally s) + sumZ (map posMissDue (timers w))
    + openUnit s (allowPressPos s) <= trialIdx s /\
  sndHits (tally s) + sndMisses (tally s) + sumZ (map sndMissDue (timers w))
    + openUnit s (allowPressSnd s) <= trialIdx s.

(** The current stimulus, when there is one, is the last entry of the stream:
    [handlePress] judges the entry at index [stream.length - 1]. *)
Definition currentIsLast (s : State) : Prop :=
  forall cur, current s = Some cur ->
    at_index (stream s) (Z.of_nat (List.length (stream s)) - 1) = Some cur.

(** ** Presentation: sound, grid and trial counter

    What the component hands to its audio sinks and shows on screen.  These
    are outputs: nothing here feeds back into the state. *)

(** [LETTER_POOL.indexOf(x)]: the first index holding [x], or [-1]. *)
Fixpoint indexOfFrom (l : list string) (x : string) (i : Z) : Z :=
  match l with
  | [] => -1
  | y :: l' => if String.eqb y x then i else indexOfFrom l' x (i + 1)
  end.

Definition indexOf (l : list string) (x : string) : Z := indexOfFrom l x 0.

(** [500 + (idx >= 0 ? idx * 30 : 0)] with [idx = LETTER_POOL.indexOf(l)] *)
Definition beepFreq (l : string) : Z :=
  let idx := indexOf LETTER_POOL l in
  500 + (if 0 <=? idx then idx * 30 else 0).

Inductive Sound :=
| Speak (text : string) (voiceName : option string) (langHint : string)
| Beep (freq : Z).

(** The audio branch of the interval callback, run with the bindings of the
    render [s] for the new stimulus [next]. *)
Definition presentSound (s : State) (next : Stimulus) : option Sound :=
  if audioEnabled s then
    Some (if useSpeech s then Speak (letter next) (voice s) (lang s)
          else Beep (beepFreq (letter next)))
  else None.

(** [Array.from({length: GRID_SIZE * GRID_SIZE}, (_, i) => i)] *)
Definition grid : list Z :=
  map Z.of_nat (seq 0 (Z.to_nat (GRID_SIZE * GRID_SIZE))).

(** [current && current.pos === i] *)
Definition isActive (cur : option Stimulus) (i : Z) : bool :=
  match cur with
  | Some c => pos c =? i
  | None => false
  end.

(** [isActive ? current?.letter : ""] *)
Definition cellText (cur : option Stimulus) (i : Z) : string :=
  if isActive cur i then
    match cur with Some c => letter c | None => ""%string end
  else ""%string.


(** The delay handed to [useInterval]: [running ? speedMs : null]. *)
Definition intervalDelay (s : State) : option Z :=
  if running s then Some (speedMs s) else None.

(** ** The [useInterval] hook

    The hook keeps the latest callback in a ref (first effect, re-run after
    every render because the callback is a new closure each time) and owns at
    most one browser interval (second effect, re-run only when [delay]
    changes; its cleanup clears the interval it created).  [live] is the
    browser's table of running intervals, [cleanupId] the interval the
    pending cleanup of the second effect will clear. *)

Record Hook (C : Type) := mkHook {
  savedCallback : option C;
  depDelay : option (option Z);
  cleanupId : option nat;
  live : list (nat * Z);
  nextId : nat }.

Arguments mkHook {C}.
Arguments savedCallback {C}.
Arguments depDelay {C}.
Arguments cleanupId {C}.
Arguments live {C}.
Arguments nextId {C}.

Definition unmounted {C : Type} : Hook C := mkHook None None None [] 0%nat.

Definition clearInterval (id : nat) (l : list (nat * Z)) : list (nat * Z) :=
  filter (fun e => negb (Nat.eqb (fst e) id)) l.

Definition runCleanup {C : Type} (h : Hook C) : list (nat * Z) :=
  match cleanupId h with
  | Some id => clearInterval id (live h)
  | None => live h
  end.

Definition sameDelay (a b : option Z) : bool :=
  match a, b with
  | None, None => true
  | Some x, Some y => x =? y
  | _, _ => false
  end.

(** One render of the component that calls [useInterval(cb, delay)],
    followed by its effects. *)
Definition renderHook {C : Type} (cb : C) (delay : option Z) (h : Hook C) : Hook C :=
  let unchanged :=
    match depDelay h with
    | Some d => sameDelay d delay
    | None => false
    end in
  if unchanged then
    mkHook (Some cb) (depDelay h) (cleanupId h) (live h) (nextId h)
  else
    match delay with
    | None => mkHook (Some cb) (Some None) None (runCleanup h) (nextId h)
    | Some d =>
        mkHook (Some cb) (Some (Some d)) (Some (nextId h))
               (runCleanup h ++ [(nextId h, d)]) (S (nextId h))
    end.

(** Unmounting runs the pending cleanup. *)
Definition unmountHook {C : Type} (h : Hook C) : Hook C :=
  mkHook (savedCallback h) None None (runCleanup h) (nextId h).

(** What the interval [id] calls when it fires:
    [savedCallback.current && savedCallback.current()]. *)
Definition intervalFires {C : Type} (h : Hook C) (id : nat) : option C :=
  if existsb (fun e => Nat.eqb (fst e) id) (live h) then savedCallback h else None.

(** What can happen to the hook: a render of its component, or an unmount
    (React's strict mode unmounts and remounts once after the first mount). *)
Inductive HookOp (C : Type) :=
| HRender (cb : C) (delay : option Z)
| HUnmount.

Arguments HRender {C}.
Arguments HUnmount {C}.

Definition hookStep {C : Type} (h : Hook C) (op : HookOp C) : Hook C :=
  match op with
  | HRender cb delay => renderHook cb delay h
  | HUnmount => unmountHook h
  end.

Definition hookRun {C : Type} (ops : list (HookOp C)) (h : Hook C) : Hook C :=
  fold_left hookStep ops h.

(** After any render the hook owns no interval when the last [delay] was
    [null], and exactly one, with that delay, otherwise. *)
Definition hookInv {C : Type} (h : Hook C) : Prop :=
  match depDelay h with
  | None => live h = [] /\ cleanupId h = None
  | Some None => live h = [] /\ cleanupId h = None
  | Some (Some d) =>
      exists id : nat, live h = [(id, d)] /\ cleanupId h = Some id
  end.

(** ** Whole blocks against the stream

    The number of true matches in a stream at offset [nb]: the entry at index
    [i] counts when [i - nb >= 0] and the entry at [i - nb] has the same
    position (letter).  [seen] holds the entries before the one looked at, so
    the test is the one the miss timer makes. *)
Fixpoint matchesFrom (m : list Stimulus -> Z -> Stimulus -> bool) (nb : Z)
    (seen rest : list Stimulus) : Z :=
  match rest with
  | [] => 0
  | x :: rest' =>
      (if m seen (Z.of_nat (List.length seen) - nb) x then 1 else 0)
      + matchesFrom m nb (seen ++ [x]) rest'
  end.

Definition posMatchCount (nb : Z) (str : list Stimulus) : Z :=
  matchesFrom posMatchAt nb [] str.

Definition sndMatchCount (nb : Z) (str : list Stimulus) : Z :=
  matchesFrom sndMatchAt nb [] str.



(** A player who presses both buttons on every trial, before the trial's
    miss timer expires. *)
Definition pressEveryTrial (draws : list (nat * nat)) : list Event :=
  flat_map (fun d => [Tick (fst d) (snd d); Press KPos; Press KSnd; Timeout 0])
           draws.

(** The state between two trials of such a player. *)
Definition answeredInv (w : World) : Prop :=
  let s := ui w in
  timers w = [] /\ running s = true /\ 1 <= n s /\
  trialIdx s = Z.of_nat (List.length (stream s)) /\
  (allowPressPos s = true -> stream s = []) /\
  (allowPressSnd s = true -> stream s = []) /\
  posHits (tally s) = posMatchCount (n s) (stream s) /\
  posFalse (tally s) = trialIdx s - posMatchCount (n s) (stream s) /\
  posMisses (tally s) = 0 /\
  sndHits (tally s) = sndMatchCount (n s) (stream s) /\
  sndFalse (tally s) = trialIdx s - sndMatchCount (n s) (stream s) /\
  sndMisses (tally s) = 0.

(** ** Invariants of the reachable worlds *)

Definition tallyNonneg (t : Tally) : Prop :=
  0 <= posHits t /\ 0 <= posMisses t /\ 0 <= posFalse t /\
  0 <= sndHits t /\ 0 <= sndMisses t /\ 0 <= sndFalse t.

(** One unit for a channel that can still be answered in this trial. *)
Definition answerable (s : State) (allow : bool) : Z :=
  match current s with
  | Some _ => if allow then 1 else 0
  | None => 0
  end.

Definition stateInv (s : State) : Prop :=
  1 <= n s /\ 300 <= speedMs s /\ 8 <= blockLen s /\
  trialIdx s = Z.of_nat (List.length (stream s)) /\
  (running s = false -> current s = None) /\
  (running s = true -> audioEnabled s = true) /\
  tallyNonneg (tally s) /\
  posHits (tally s) + posFalse (tally s) + answerable s (allowPressPos s)
    <= trialIdx s /\
  sndHits (tally s) + sndFalse (tally s) + answerable s (allowPressSnd s)
    <= trialIdx s.

Definition timerInv (t : Timer) : Prop :=
  match t with
  | MissTimer render _ => 300 <= speedMs render /\ running render = true
  | ResetTimer nextN => 1 <= nextN
  end.

Definition worldInv (w : World) : Prop :=
  stateInv (ui w) /\ Forall timerInv (timers w).

(** An event that resets the block. *)
Definition isReset (w : World) (e : Event) : bool :=
  match e with
  | Start | ResetBlockButton => true
  | Timeout k =>
      match nth_error (timers w) k with
      | Some (ResetTimer _) => true
      | _ => false
      end
  | _ => false
  end.

(** Counter by counter, [t] is at most [t']. *)
Definition tallyLe (t t' : Tally) : Prop :=
  posHits t <= posHits t' /\ posMisses t <= posMisses t' /\
  posFalse t <= posFalse t' /\ sndHits t <= sndHits t' /\
  sndMisses t <= sndMisses t' /\ sndFalse t <= sndFalse t'.

Definition tallyTotal (t : Tally) : Z :=
  posHits t + posMisses t + posFalse t + sndHits t + sndMisses t + sndFalse t.

(** The block-end rule on integers: [h] combined hits out of [a] combined
    attempts. *)
Definition nextNByCounts (h a curN : Z) : Z :=
  if (0 <? a) && (3 * a <=? 4 * h) then curN + 1
  else if (a =? 0) || (20 * h <? 11 * a) then Z.max 1 (curN - 1)
  else curN.

(** ** Scenarios *)

(** Three trials at the initial settings ([n = 2]); the third stimulus repeats
    the position of the first and no button was pressed so far.  The miss
    timers of the first two trials have fired, the third is pending. *)
Definition thirdTrialInFlight : World :=
  run initialWorld [Start; Tick 0 0; Timeout 0; Tick 1 1; Timeout 0; Tick 0 2].

(** A whole block of [DEFAULT_BLOCK_LEN] trials in which no stimulus repeats
    the one two steps back and no button is pressed. *)
Fixpoint quietTrials (k : nat) (i : nat) : list Event :=
  match k with
  | O => []
  | S k' => Tick (i mod 3) (i mod 3) :: Timeout 0 :: quietTrials k' (S i)
  end.

Definition quietBlock : World :=
  run (step initialWorld Start) (quietTrials 20 0).

(** ** Basic facts *)

Lemma state_eta (s : State) :
  mkState (running s) (n s) (speedMs s) (blockLen s) (trialIdx s) (stream s)
          (current s) (tally s) (allowPressPos s) (allowPressSnd s)
          (audioEnabled s) (useSpeech s) (voice s) (lang s) = s.
Proof. destruct s; reflexivity. Qed.

Lemma world_eta (w : World) : mkWorld (ui w) (timers w) = w.
Proof. destruct w; reflexivity. Qed.

Lemma reachable_run (w : World) (es : list Event) :
  reachable w -> reachable (run w es).
Proof.
  revert w. induction es as [|e es IH]; intros w Hw; simpl.
  - exact Hw.
  - apply IH. constructor. exact Hw.
Qed.

Lemma handlePress_tally (kind : Kind) (s : State) (cur : Stimulus) :
  current s = Some cur ->
  tally (handlePress kind s) =
    if allowPress kind s then recordPress kind (pressMatch kind s cur) (tally s)
    else tally s.
Proof.
  intros Hc. unfold handlePress. rewrite Hc.
  destruct kind; simpl; unfold pressUpdater, pressMatch; simpl.
  - destruct (allowPressPos s); simpl; [|reflexivity].
    destruct (posMatchAt _ _ _); reflexivity.
  - destruct (allowPressSnd s); simpl; [|reflexivity].
    destruct (sndMatchAt _ _ _); reflexivity.
Qed.

(** A press on a channel already answered in this trial changes nothing. *)
Lemma handlePress_closed (kind : Kind) (s : State) :
  allowPress kind s = false -> handlePress kind s = s.
Proof.
  intros Ha. unfold handlePress. destruct (current s) as [cur|] eqn:Hc; [|reflexivity].
  destruct kind; simpl in Ha; unfold pressUpdater; rewrite Ha; simpl.
  - unfold setAllowPressPos, setTally; simpl. rewrite <- Ha. apply state_eta.
  - unfold setAllowPressSnd, setTally; simpl. rewrite <- Ha. apply state_eta.
Qed.

Lemma handlePress_no_current (kind : Kind) (s : State) :
  current s = None -> handlePress kind s = s.
Proof. intros Hc. unfold handlePress. rewrite Hc. reflexivity. Qed.

(** The miss timer never scores a trial whose index is below the [n] it
    captured. *)
Lemma missUpdater_before_n (render : State) (next : Stimulus) (prev : Tally) :
  Z.of_nat (List.length (stream render)) < n render ->
  missUpdater render next prev = prev.
Proof.
  intros Hlt. unfold missUpdater, posMatchAt, sndMatchAt.
  replace (0 <=? Z.of_nat (List.length (stream render)) - n render) with false
    by (symmetry; apply Z.leb_gt; lia).
  reflexivity.
Qed.



(** ** Match detection *)

Lemma at_index_snoc {A : Type} (l : list A) (x : A) :
  at_index (l ++ [x]) (Z.of_nat (List.length (l ++ [x])) - 1) = Some x.
Proof.
  unfold at_index. rewrite length_app. simpl List.length.
  replace (Z.of_nat (List.length l + 1) - 1 <? 0) with false
    by (symmetry; apply Z.ltb_ge; lia).
  replace (Z.to_nat (Z.of_nat (List.length l + 1) - 1)) with (List.length l) by lia.
  rewrite nth_error_app2 by lia. rewrite Nat.sub_diag. reflexivity.
Qed.

Lemma step_currentIsLast (w : World) (e : Event) :
  currentIsLast (ui w) -> currentIsLast (ui (step w e)).
Proof.
  unfold currentIsLast. intros H.
  destruct e; simpl; try exact H; try discriminate.
  - unfold tick. destruct (negb (running (ui w))); simpl; [exact H|].
    destruct (blockLen (ui w) <=? trialIdx (ui w)); simpl; [exact H|].
    intros cur Hc. inversion Hc; subst. apply at_index_snoc.
  - destruct (running (ui w)); [|exact H]. simpl.
    unfold handlePress. destruct (current (ui w)) eqn:Hc; [|rewrite Hc; discriminate].
    destruct kind; simpl; rewrite Hc; exact H.
  - destruct (nth_error (timers w) k) as [[render next|nextN]|]; simpl;
      try exact H; discriminate.
Qed.

(** This holds in every reachable world. *)
Lemma reachable_currentIsLast (w : World) : reachable w -> currentIsLast (ui w).
Proof.
  induction 1 as [|w e Hw IH].
  - intros cur Hc. discriminate.
  - apply step_currentIsLast. exact IH.
Qed.





(** ** Accuracy *)

Lemma ratio_zero (h : Z) : ratio h 0 = 0%Q.
Proof. reflexivity. Qed.

Lemma ratio_times_den (h d : Z) :
  (ratio h d * inject_Z d == if d =? 0 then 0 else inject_Z h)%Q.
Proof.
  unfold ratio. destruct (d =? 0) eqn:Hd.
  - ring.
  - apply Z.eqb_neq in Hd. field.
    intros H. apply Hd. unfold Qeq in H. simpl in H. lia.
Qed.

(** C5. Per-channel accuracy is [hits / (hits + misses)] and combined
    accuracy is [(posHits + sndHits) / (posHits + posMisses + sndHits +
    sndMisses)], each being 0 when its denominator is 0; the quotient is pinned
    down by [acc * denominator == hits]; and no accuracy figure depends on the
    false-alarm counters. *)
Theorem accuracy_formulas (t : Tally) :
  posAcc t = (if posHits t + posMisses t =? 0 then 0
              else inject_Z (posHits t) / inject_Z (posHits t + posMisses t))%Q /\
  sndAcc t = (if sndHits t + sndMisses t =? 0 then 0
              else inject_Z (sndHits t) / inject_Z (sndHits t + sndMisses t))%Q /\
  combinedAcc t =
    (if posHits t + posMisses t + sndHits t + sndMisses t =? 0 then 0
     else inject_Z (posHits t + sndHits t) /
          inject_Z (posHits t + posMisses t + sndHits t + sndMisses t))%Q /\
  (posAcc t * inject_Z (posHits t + posMisses t) ==
     if posHits t + posMisses t =? 0 then 0 else inject_Z (posHits t))%Q /\
  (sndAcc t * inject_Z (sndHits t + sndMisses t) ==
     if sndHits t + sndMisses t =? 0 then 0 else inject_Z (sndHits t))%Q /\
  (combinedAcc t * inject_Z (posHits t + posMisses t + sndHits t + sndMisses t) ==
     if posHits t + posMisses t + sndHits t + sndMisses t =? 0 then 0
     else inject_Z (posHits t + sndHits t))%Q /\
  (forall pf sf : Z,
     let t' := mkTally (posHits t) (posMisses t) pf (sndHits t) (sndMisses t) sf in
     posAcc t' = posAcc t /\ sndAcc t' = sndAcc t /\ combinedAcc t' = combinedAcc t).
Proof.
  assert (Hc : posHits t + posMisses t + (sndHits t + sndMisses t)
               = posHits t + posMisses t + sndHits t + sndMisses t) by lia.
  repeat split.
  - unfold combinedAcc, combinedAttempts, combinedHits, posAttempts, sndAttempts, ratio.
    rewrite Hc. reflexivity.
  - apply ratio_times_den.
  - apply ratio_times_den.
  - unfold combinedAcc, combinedAttempts, combinedHits, posAttempts, sndAttempts.
    rewrite Hc. apply ratio_times_den.
Qed.

(** ** Block-end difficulty rule *)

Lemma geThreshold_iff (acc : Q) : geThreshold acc = true <-> (75 # 100 <= acc)%Q.
Proof. unfold geThreshold. apply Qle_bool_iff. Qed.

Lemma ltThreshold_iff (acc : Q) : ltThreshold acc = true <-> (acc < 55 # 100)%Q.
Proof.
  unfold ltThreshold. rewrite negb_true_iff. split.
  - intros H. apply Qnot_le_lt. intros Hle.
    apply Qle_bool_iff in Hle. congruence.
  - intros H. destruct (Qle_bool (55 # 100) acc) eqn:E; [|reflexivity].
    apply Qle_bool_iff in E. exfalso. exact (Qlt_not_le _ _ H E).
Qed.

Lemma blockEndNextN_acc (t : Tally) (curN : Z) :
  blockEndNextN t curN =
    if geThreshold (combinedAcc t) then curN + 1
    else if ltThreshold (combinedAcc t) then Z.max 1 (curN - 1)
    else curN.
Proof. reflexivity. Qed.

Lemma blockEndNextN_ge_1 (t : Tally) (curN : Z) :
  1 <= curN -> 1 <= blockEndNextN t curN.
Proof.
  intros H. rewrite blockEndNextN_acc.
  destruct (geThreshold _); [lia|]. destruct (ltThreshold _); lia.
Qed.

(** The three difficulty transitions listed among the testable properties. *)
Example blockEnd_up : blockEndNextN (mkTally 8 2 0 7 3 0) 2 = 3.
Proof. reflexivity. Qed.

Example blockEnd_down : blockEndNextN (mkTally 3 7 0 2 8 0) 3 = 2.
Proof. reflexivity. Qed.

Example blockEnd_same : blockEndNextN (mkTally 6 4 0 6 4 0) 4 = 4.
Proof. reflexivity. Qed.



(** ** Reset, start and stop *)

(** C9. [resetBlock()] zeroes the trial index, empties the stimulus history,
    clears the current stimulus, zeroes the six tally counters and re-opens
    both response channels, and leaves [n], [running], speed, block length and
    the audio settings as they were; [resetBlock(nextN)] does the same and
    sets [n] to [max 1 nextN]. *)
Theorem resetBlock_effect (s : State) (nextN : Z) :
  let r := resetBlock None s in
  let r' := resetBlock (Some nextN) s in
  (trialIdx r = 0 /\ stream r = [] /\ current r = None /\
   posHits (tally r) = 0 /\ posMisses (tally r) = 0 /\ posFalse (tally r) = 0 /\
   sndHits (tally r) = 0 /\ sndMisses (tally r) = 0 /\ sndFalse (tally r) = 0 /\
   allowPressPos r = true /\ allowPressSnd r = true) /\
  (n r = n s /\ running r = running s /\ speedMs r = speedMs s /\
   blockLen r = blockLen s /\ audioEnabled r = audioEnabled s /\
   useSpeech r = useSpeech s /\ voice r = voice s /\ lang r = lang s) /\
  r' = setN (Z.max 1 nextN) r /\
  n r' = Z.max 1 nextN.
Proof.
  cbv zeta. repeat split.
Qed.

(** C10. With no current stimulus a press changes nothing: neither the tally
    nor any other state cell nor the pending timers.  This is the situation
    after [start()] until the first tick, and after [stop()]. *)
Theorem press_without_stimulus (w : World) (kind : Kind)
  (Hcur : current (ui w) = None) :
  handlePress kind (ui w) = ui w /\
  step w (Press kind) = w /\
  handlePress kind (start (ui w)) = start (ui w) /\
  handlePress kind (stop (ui w)) = stop (ui w) /\
  step (step w Start) (Press kind) = step w Start /\
  step (step w Stop) (Press kind) = step w Stop.
Proof.
  split; [|split; [|split; [|split; [|split]]]].
  - apply handlePress_no_current. exact Hcur.
  - simpl. destruct (running (ui w)); [|reflexivity].
    rewrite handlePress_no_current by exact Hcur. apply world_eta.
  - reflexivity.
  - reflexivity.
  - reflexivity.
  - reflexivity.
Qed.

Lemma press_without_stimulus_witness :
  step (step initialWorld Start) (Press KPos) = step initialWorld Start.
Proof.
  exact (proj1 (proj2 (press_without_stimulus (step initialWorld Start) KPos eq_refl))).
Defined.

(** ** Scoring within an uninterrupted block *)

Lemma missUpdater_fields (render : State) (next : Stimulus) (prev : Tally) :
  posHits (missUpdater render next prev) = posHits prev /\
  posFalse (missUpdater render next prev) = posFalse prev /\
  sndHits (missUpdater render next prev) = sndHits prev /\
  sndFalse (missUpdater render next prev) = sndFalse prev /\
  posMisses (missUpdater render next prev) =
    posMisses prev + posMissDue (MissTimer render next) /\
  sndMisses (missUpdater render next prev) =
    sndMisses prev + sndMissDue (MissTimer render next).
Proof.
  unfold missUpdater, posMissDue, sndMissDue.
  destruct (posMatchAt _ _ _ && allowPressPos render);
  destruct (sndMatchAt _ _ _ && allowPressSnd render);
  simpl; repeat split; lia.
Qed.

Lemma posMissDue_bounds (t : Timer) : 0 <= posMissDue t <= 1.
Proof.
  destruct t as [render next|nextN]; simpl; [|lia].
  destruct (posMatchAt _ _ _ && allowPressPos render); lia.
Qed.

Lemma sndMissDue_bounds (t : Timer) : 0 <= sndMissDue t <= 1.
Proof.
  destruct t as [render next|nextN]; simpl; [|lia].
  destruct (sndMatchAt _ _ _ && allowPressSnd render); lia.
Qed.

(** A miss can only fall due for a trial whose index has reached [n]. *)
Lemma posMissDue_index (render : State) (next : Stimulus) :
  Z.of_nat (List.length (stream render)) < n render ->
  posMissDue (MissTimer render next) = 0.
Proof.
  intros Hlt. simpl. unfold posMatchAt.
  replace (0 <=? Z.of_nat (List.length (stream render)) - n render) with false
    by (symmetry; apply Z.leb_gt; lia).
  reflexivity.
Qed.

Lemma sndMissDue_index (render : State) (next : Stimulus) :
  Z.of_nat (List.length (stream render)) < n render ->
  sndMissDue (MissTimer render next) = 0.
Proof.
  intros Hlt. simpl. unfold sndMatchAt.
  replace (0 <=? Z.of_nat (List.length (stream render)) - n render) with false
    by (symmetry; apply Z.leb_gt; lia).
  reflexivity.
Qed.

Lemma sumZ_app (l1 l2 : list Z) : sumZ (l1 ++ l2) = sumZ l1 + sumZ l2.
Proof.
  induction l1 as [|x l1 IH]; simpl; [reflexivity|].
  unfold sumZ in *. simpl. rewrite IH. lia.
Qed.

Lemma sumZ_remove_nth {A : Type} (f : A -> Z) (l : list A) (k : nat) (x : A) :
  nth_error l k = Some x ->
  sumZ (map f l) = f x + sumZ (map f (remove_nth k l)).
Proof.
  revert k. induction l as [|y l IH]; intros k Hk.
  - destruct k; discriminate.
  - destruct k as [|k]; simpl in Hk.
    + inversion Hk; subst. reflexivity.
    + simpl. unfold sumZ in *. simpl. rewrite (IH k Hk). lia.
Qed.

Lemma sumZ_nonneg {A : Type} (f : A -> Z) (l : list A) :
  (forall x, 0 <= f x) -> 0 <= sumZ (map f l).
Proof.
  intros Hf. induction l as [|y l IH]; unfold sumZ in *; simpl; [lia|].
  specialize (Hf y). lia.
Qed.

Lemma posMissDue_allow (render : State) (next : Stimulus) :
  posMissDue (MissTimer render next) <= if allowPressPos render then 1 else 0.
Proof.
  simpl. destruct (posMatchAt _ _ _); destruct (allowPressPos render); simpl; lia.
Qed.

Lemma sndMissDue_allow (render : State) (next : Stimulus) :
  sndMissDue (MissTimer render next) <= if allowPressSnd render then 1 else 0.
Proof.
  simpl. destruct (sndMatchAt _ _ _); destruct (allowPressSnd render); simpl; lia.
Qed.

Lemma pressMatch_index (kind : Kind) (s : State) (cur : Stimulus) :
  pressMatch kind s cur = true ->
  0 <= Z.of_nat (List.length (stream s)) - 1 - n s.
Proof.
  unfold pressMatch, posMatchAt, sndMatchAt.
  destruct kind; intros H; apply andb_true_iff in H; destruct H as [H _];
    apply Z.leb_le in H; exact H.
Qed.

Lemma sumZ_no_miss_timers (f : Timer -> Z) (l : list Timer) :
  (forall nextN, f (ResetTimer nextN) = 0) ->
  forallb (fun t => negb (isMissTimer t)) l = true ->
  sumZ (map f l) = 0.
Proof.
  intros Hf. induction l as [|t l IH]; intros Hl; [reflexivity|].
  simpl in Hl. apply andb_true_iff in Hl. destruct Hl as [Ht Hl].
  destruct t as [render next|nextN]; [discriminate|].
  unfold sumZ in *. simpl. rewrite Hf. rewrite (IH Hl). reflexivity.
Qed.

Lemma blockStart_inv (w : World) : blockStart w -> blockInv w.
Proof.
  intros (Hk & Hstr & Hcur & Ht & Hn & Htm). unfold blockInv. cbv zeta.
  rewrite Hk, Hstr, Ht, Hcur.
  rewrite (sumZ_no_miss_timers posMissDue) by (auto || exact Htm).
  rewrite (sumZ_no_miss_timers sndMissDue) by (auto || exact Htm).
  unfold openUnit. rewrite Hk. simpl.
  repeat split; try lia; intros _ H; exfalso; apply H; reflexivity.
Qed.

Lemma blockInv_tick (w : World) (rp rl : nat) :
  blockEvent w (Tick rp rl) = true -> blockInv w -> blockInv (step w (Tick rp rl)).
Proof.
  intros Hev (Hn & Hk & Hph & Hsh & _ & _ & Hpm & Hsm & Hpa & Hsa).
  simpl in Hev. apply andb_true_iff in Hev. destruct Hev as [Hrun Hlt].
  apply Z.ltb_lt in Hlt.
  simpl. unfold tick. rewrite Hrun. simpl.
  replace (blockLen (ui w) <=? trialIdx (ui w)) with false
    by (symmetry; apply Z.leb_gt; exact Hlt).
  unfold blockInv. cbv zeta. simpl.
  rewrite !map_app, !sumZ_app. simpl map.
  set (nx := generateNextStimulus rp rl).
  pose proof (posMissDue_bounds (MissTimer (ui w) nx)) as Hpb.
  pose proof (sndMissDue_bounds (MissTimer (ui w) nx)) as Hsb.
  assert (Hpi : trialIdx (ui w) < n (ui w) -> posMissDue (MissTimer (ui w) nx) = 0)
    by (intros H; apply posMissDue_index; lia).
  assert (Hsi : trialIdx (ui w) < n (ui w) -> sndMissDue (MissTimer (ui w) nx) = 0)
    by (intros H; apply sndMissDue_index; lia).
  pose proof (posMissDue_allow (ui w) nx) as Hpl.
  pose proof (sndMissDue_allow (ui w) nx) as Hsl.
  unfold openUnit in *. simpl trialIdx.
  replace (0 <? trialIdx (ui w) + 1) with true by (symmetry; apply Z.ltb_lt; lia).
  unfold sumZ at 2 4 6 8. simpl fold_right.
  simpl in Hpb, Hsb, Hpi, Hsi, Hpl, Hsl.
  rewrite length_app. simpl List.length. simpl andb.
  destruct (0 <? trialIdx (ui w)) eqn:Hpos;
    [apply Z.ltb_lt in Hpos | apply Z.ltb_ge in Hpos];
    destruct (allowPressPos (ui w)); destruct (allowPressSnd (ui w));
    simpl in *; repeat split; lia.
Qed.

Lemma blockInv_press (w : World) (kind : Kind) :
  blockInv w -> blockInv (step w (Press kind)).
Proof.
  intros Hinv. simpl. destruct (running (ui w)); [|exact Hinv].
  destruct (current (ui w)) as [cur|] eqn:Hcur.
  2:{ rewrite handlePress_no_current by exact Hcur. rewrite world_eta. exact Hinv. }
  destruct (allowPress kind (ui w)) eqn:Hallow.
  2:{ rewrite handlePress_closed by exact Hallow. rewrite world_eta. exact Hinv. }
  pose proof (pressMatch_index kind (ui w) cur) as Hidx.
  destruct Hinv as (Hn & Hk & Hph & Hsh & Hpo & Hso & Hpm & Hsm & Hpa & Hsa).
  assert (Hne : current (ui w) <> None) by (rewrite Hcur; discriminate).
  unfold blockInv. cbv zeta. unfold handlePress. rewrite Hcur.
  unfold openUnit in *.
  destruct (0 <? trialIdx (ui w)) eqn:Hpos;
    [apply Z.ltb_lt in Hpos | apply Z.ltb_ge in Hpos].
  - destruct kind; simpl in Hallow, Hidx |- *; unfold pressUpdater;
      rewrite Hallow in *; simpl in *;
      replace (0 <? trialIdx (ui w)) with true by (symmetry; apply Z.ltb_lt; lia).
    + specialize (Hpo eq_refl Hne).
      destruct (posMatchAt _ _ _) eqn:Hm; simpl;
        repeat split; intros; try discriminate; try lia;
        try (apply Hso; assumption).
    + specialize (Hso eq_refl Hne).
      destruct (sndMatchAt _ _ _) eqn:Hm; simpl;
        repeat split; intros; try discriminate; try lia;
        try (apply Hpo; assumption).
  - destruct kind; simpl in Hallow, Hidx |- *; unfold pressUpdater;
      rewrite Hallow in *; simpl in *;
      replace (0 <? trialIdx (ui w)) with false by (symmetry; apply Z.ltb_ge; lia).
    + specialize (Hpo eq_refl Hne).
      destruct (posMatchAt _ _ _) eqn:Hm; simpl;
        repeat split; intros; try discriminate; try lia;
        try (apply Hso; assumption).
    + specialize (Hso eq_refl Hne).
      destruct (sndMatchAt _ _ _) eqn:Hm; simpl;
        repeat split; intros; try discriminate; try lia;
        try (apply Hpo; assumption).
Qed.

Lemma blockInv_timeout (w : World) (k : nat) :
  blockEvent w (Timeout k) = true -> blockInv w -> blockInv (step w (Timeout k)).
Proof.
  intros Hev (Hn & Hk & Hph & Hsh & Hpo & Hso & Hpm & Hsm & Hpa & Hsa).
  simpl in Hev. simpl.
  destruct (nth_error (timers w) k) as [[render next|nextN]|] eqn:Hnth;
    try discriminate.
  rewrite (sumZ_remove_nth posMissDue _ _ _ Hnth) in Hpm, Hpa.
  rewrite (sumZ_remove_nth sndMissDue _ _ _ Hnth) in Hsm, Hsa.
  destruct (missUpdater_fields render next (tally (ui w)))
    as (E1 & _ & E3 & _ & E5 & E6).
  unfold blockInv, openUnit in *. cbv zeta. simpl.
  rewrite E1, E3, E5, E6.
  repeat split; try lia; assumption.
Qed.

Lemma blockInv_step (w : World) (e : Event) :
  blockEvent w e = true -> blockInv w -> blockInv (step w e).
Proof.
  intros Hev Hinv. destruct e; try discriminate.
  - apply blockInv_tick; assumption.
  - apply blockInv_press; assumption.
  - apply blockInv_timeout; assumption.
  - exact Hinv.
  - exact Hinv.
  - exact Hinv.
  - exact Hinv.
  - exact Hinv.
Qed.

Lemma blockInv_run (es : list Event) (w0 w : World) :
  blockRun w0 es = Some w -> blockInv w0 -> blockInv w.
Proof.
  revert w0. induction es as [|e es IH]; intros w0 Hrun Hinv; simpl in Hrun.
  - inversion Hrun; subst. exact Hinv.
  - destruct (blockEvent w0 e) eqn:Hev; [|discriminate].
    apply (IH (step w0 e) Hrun). apply blockInv_step; assumption.
Qed.

Lemma blockRun_is_run (es : list Event) (w0 w : World) :
  blockRun w0 es = Some w -> run w0 es = w.
Proof.
  revert w0. induction es as [|e es IH]; intros w0 Hrun; simpl in Hrun.
  - inversion Hrun. reflexivity.
  - destruct (blockEvent w0 e); [|discriminate]. simpl. apply IH. exact Hrun.
Qed.

(** Within an uninterrupted block, hits plus misses on a channel never exceed
    the trial counter of the component (which counts the trials started). *)
Lemma uninterrupted_block_attempts (w0 w : World) (es : list Event) :
  blockStart w0 -> blockRun w0 es = Some w ->
  posHits (tally (ui w)) + posMisses (tally (ui w)) <= trialIdx (ui w) /\
  sndHits (tally (ui w)) + sndMisses (tally (ui w)) <= trialIdx (ui w).
Proof.
  intros Hstart Hrun.
  pose proof (blockInv_run es w0 w Hrun (blockStart_inv w0 Hstart)) as Hinv.
  destruct Hinv as (_ & _ & _ & _ & _ & _ & _ & _ & Hpa & Hsa).
  pose proof (sumZ_nonneg posMissDue (timers w)
                (fun t => proj1 (posMissDue_bounds t))) as Hp0.
  pose proof (sumZ_nonneg sndMissDue (timers w)
                (fun t => proj1 (sndMissDue_bounds t))) as Hs0.
  unfold openUnit in *.
  destruct (0 <? trialIdx (ui w)); destruct (allowPressPos (ui w));
    destruct (allowPressSnd (ui w)); simpl in *; lia.
Qed.




(** ** Responses, expiry and stop: what the handlers do with each other *)


Lemma fire_miss_keeps_channels (render : State) (next : Stimulus) (s : State) :
  let s' := fireTimer (MissTimer render next) s in
  current s' = current s /\ stream s' = stream s /\ n s' = n s /\
  running s' = running s /\
  allowPressPos s' = allowPressPos s /\ allowPressSnd s' = allowPressSnd s.
Proof. cbv zeta. repeat split. Qed.




(** C1: the code at the failing input.  In [thirdTrialInFlight] (tally still
    empty, third trial a true position match) the position button is pressed:
    a hit is recorded and the channel closes, and a second press changes
    nothing.  When the miss timer of that same trial then fires it reads the
    [allowPressPos] of the render before the tick, which is [true], and
    records a miss as well: one trial, one channel, a hit and a miss. *)
Theorem answered_channel_also_missed :
  let pressed := step thirdTrialInFlight (Press KPos) in
  let expired := step pressed (Timeout 0) in
  tally (ui thirdTrialInFlight) = emptyTally /\
  trialIdx (ui thirdTrialInFlight) = 3 /\
  tally (ui pressed) = incPosHits emptyTally /\
  allowPressPos (ui pressed) = false /\
  step pressed (Press KPos) = pressed /\
  trialIdx (ui expired) = 3 /\
  tally (ui expired) = incPosMisses (incPosHits emptyTally).
Proof.
  cbv zeta.
  split; [vm_compute; reflexivity|].
  split; [vm_compute; reflexivity|].
  split; [vm_compute; reflexivity|].
  split; [vm_compute; reflexivity|].
  split; [vm_compute; reflexivity|].
  split; vm_compute; reflexivity.
Qed.

(** C3: the code at the failing input.  [stop()] during the third trial of
    [thirdTrialInFlight] clears [running] and [current] and silences the
    tick, but the miss timer of the trial in flight stays pending; when it
    fires, after the stop, it adds a position miss to the tally. *)
Theorem miss_scored_after_stop :
  let stopped := step thirdTrialInFlight Stop in
  let later := step stopped (Timeout 0) in
  running (ui stopped) = false /\
  current (ui stopped) = None /\
  tally (ui stopped) = emptyTally /\
  List.length (timers stopped) = 1%nat /\
  step stopped (Tick 0 0) = stopped /\
  running (ui later) = false /\
  tally (ui later) = incPosMisses emptyTally.
Proof.
  cbv zeta.
  split; [vm_compute; reflexivity|].
  split; [vm_compute; reflexivity|].
  split; [vm_compute; reflexivity|].
  split; [vm_compute; reflexivity|].
  split; [vm_compute; reflexivity|].
  split; vm_compute; reflexivity.
Qed.

(** C6: the code at the failing input.  The Reset Block button is pressed
    during the third trial of [thirdTrialInFlight]: the new block starts with
    [trialIdx = 0] and an empty tally, and the miss timer of the old block's
    trial, still pending, then adds a position miss to the new block's tally,
    so that [posHits + posMisses = 1 > 0 = trialIdx]. *)
Theorem stale_miss_exceeds_trialIdx :
  let fresh := step thirdTrialInFlight ResetBlockButton in
  let later := step fresh (Timeout 0) in
  trialIdx (ui fresh) = 0 /\
  tally (ui fresh) = emptyTally /\
  List.length (timers fresh) = 1%nat /\
  trialIdx (ui later) = 0 /\
  posHits (tally (ui later)) + posMisses (tally (ui later)) = 1 /\
  ~ (posHits (tally (ui later)) + posMisses (tally (ui later))
     <= trialIdx (ui later)).
Proof.
  cbv zeta.
  split; [vm_compute; reflexivity|].
  split; [vm_compute; reflexivity|].
  split; [vm_compute; reflexivity|].
  split; [vm_compute; reflexivity|].
  split; [vm_compute; reflexivity|].
  vm_compute. intros H. apply H. reflexivity.
Qed.

(** ** Invariants of every reachable world *)

Lemma Forall_remove_nth {A : Type} (P : A -> Prop) (l : list A) (k : nat) :
  Forall P l -> Forall P (remove_nth k l).
Proof.
  intros H. revert k. induction H as [|x l Hx Hl IH]; intros k.
  - destruct k; constructor.
  - destruct k as [|k]; simpl; [exact Hl|]. constructor; [exact Hx|apply IH].
Qed.


Lemma answerable_bounds (s : State) (allow : bool) : 0 <= answerable s allow <= 1.
Proof. unfold answerable. destruct (current s); [destruct allow|]; lia. Qed.

Lemma stateInv_initial : stateInv initialState.
Proof.
  unfold stateInv, tallyNonneg, answerable. simpl.
  repeat split; try lia; try reflexivity; intros; discriminate.
Qed.

Lemma stateInv_resetBlock (o : option Z) (s : State) :
  stateInv s -> stateInv (resetBlock o s).
Proof.
  intros (Hn & Hs & Hb & Hk & Hrc & Hra & Ht & Hp & Hq).
  unfold tallyNonneg in Ht.
  unfold stateInv, tallyNonneg, answerable.
  destruct o as [v|]; simpl; repeat split; try lia; auto.
Qed.

Lemma stateInv_start (s : State) : stateInv s -> stateInv (start s).
Proof.
  intros (Hn & Hs & Hb & Hk & Hrc & Hra & Ht & Hp & Hq).
  unfold tallyNonneg in Ht.
  unfold stateInv, tallyNonneg, answerable. simpl.
  repeat split; try lia; auto; intros; try discriminate; try lia; try congruence.
Qed.

Lemma stateInv_stop (s : State) : stateInv s -> stateInv (stop s).
Proof.
  intros (Hn & Hs & Hb & Hk & Hrc & Hra & Ht & Hp & Hq).
  unfold tallyNonneg in Ht.
  pose proof (answerable_bounds s (allowPressPos s)).
  pose proof (answerable_bounds s (allowPressSnd s)).
  unfold stateInv, tallyNonneg, answerable. simpl.
  repeat split; try lia; auto; intros; try discriminate; try lia; try congruence.
Qed.

Lemma stateInv_tick (next : Stimulus) (s : State) :
  stateInv s ->
  stateInv (fst (tick next s)) /\ Forall timerInv (snd (tick next s)).
Proof.
  intros Hinv. unfold tick.
  destruct (running s) eqn:Hrun; simpl; [|split; [exact Hinv|constructor]].
  destruct (blockLen s <=? trialIdx s) eqn:Hend; simpl.
  - split; [exact Hinv|]. constructor; [|constructor]. simpl.
    apply blockEndNextN_ge_1. apply Hinv.
  - destruct Hinv as (Hn & Hs & Hb & Hk & Hrc & Hra & Ht & Hp & Hq).
    unfold tallyNonneg in Ht.
    pose proof (answerable_bounds s (allowPressPos s)).
    pose proof (answerable_bounds s (allowPressSnd s)).
    split.
    + unfold stateInv, tallyNonneg, answerable. simpl. rewrite length_app. simpl List.length.
      repeat split; try lia; auto; intros; try discriminate; try lia; try congruence.
    + constructor; [|constructor]. simpl. split; [lia|exact Hrun].
Qed.

Lemma recordPress_nonneg (kind : Kind) (m : bool) (t : Tally) :
  tallyNonneg t -> tallyNonneg (recordPress kind m t).
Proof.
  unfold tallyNonneg. intros H. destruct kind, m; simpl; repeat split; lia.
Qed.

Lemma stateInv_handlePress (kind : Kind) (s : State) :
  stateInv s -> stateInv (handlePress kind s).
Proof.
  intros Hinv.
  destruct (current s) as [cur|] eqn:Hcur.
  2:{ rewrite handlePress_no_current by exact Hcur. exact Hinv. }
  destruct (allowPress kind s) eqn:Hallow.
  2:{ rewrite handlePress_closed by exact Hallow. exact Hinv. }
  pose proof (handlePress_tally kind s cur Hcur) as Ht'. rewrite Hallow in Ht'.
  destruct Hinv as (Hn & Hs & Hb & Hk & Hrc & Hra & Ht & Hp & Hq).
  pose proof (recordPress_nonneg kind (pressMatch kind s cur) (tally s) Ht) as Hnn.
  rewrite <- Ht' in Hnn.
  unfold answerable in Hp, Hq. rewrite Hcur in Hp, Hq.
  assert (Hfields :
    running (handlePress kind s) = running s /\ n (handlePress kind s) = n s /\
    speedMs (handlePress kind s) = speedMs s /\
    blockLen (handlePress kind s) = blockLen s /\
    trialIdx (handlePress kind s) = trialIdx s /\
    stream (handlePress kind s) = stream s /\
    current (handlePress kind s) = current s /\
    audioEnabled (handlePress kind s) = audioEnabled s /\
    allowPressPos (handlePress kind s) =
      match kind with KPos => false | KSnd => allowPressPos s end /\
    allowPressSnd (handlePress kind s) =
      match kind with KPos => allowPressSnd s | KSnd => false end).
  { unfold handlePress. rewrite Hcur. destruct kind; simpl; repeat split; exact Hcur. }
  destruct Hfields as (F1 & F2 & F3 & F4 & F5 & F6 & F7 & F8 & F9 & F10).
  unfold stateInv, answerable.
  rewrite F1, F2, F3, F4, F5, F6, F7, F8, F9, F10, Ht', Hcur.
  rewrite <- Ht'.
  split; [exact Hn|]. split; [exact Hs|]. split; [exact Hb|].
  split; [exact Hk|]. split; [rewrite <- Hcur; exact Hrc|].
  split; [exact Hra|]. split; [exact Hnn|].
  rewrite Ht'.
  destruct kind; simpl in Hallow; rewrite Hallow in *;
    destruct (pressMatch _ s cur); simpl; split; lia.
Qed.

Lemma missUpdater_nonneg (render : State) (next : Stimulus) (t : Tally) :
  tallyNonneg t -> tallyNonneg (missUpdater render next t).
Proof.
  unfold tallyNonneg. intros H.
  destruct (missUpdater_fields render next t) as (E1 & E2 & E3 & E4 & E5 & E6).
  pose proof (posMissDue_bounds (MissTimer render next)).
  pose proof (sndMissDue_bounds (MissTimer render next)).
  rewrite E1, E2, E3, E4, E5, E6. repeat split; lia.
Qed.

Lemma stateInv_fireTimer (t : Timer) (s : State) :
  stateInv s -> stateInv (fireTimer t s).
Proof.
  intros Hinv. destruct t as [render next|nextN].
  - destruct Hinv as (Hn & Hs & Hb & Hk & Hrc & Hra & Ht & Hp & Hq).
    pose proof Ht as Ht0. unfold tallyNonneg in Ht0.
    destruct (missUpdater_fields render next (tally s))
      as (E1 & E2 & E3 & E4 & E5 & E6).
    pose proof (missUpdater_nonneg render next (tally s) Ht) as Hnn.
    unfold stateInv, tallyNonneg, answerable in *. simpl.
    rewrite E1, E2, E3, E4.
    repeat split; try lia; auto.
  - apply stateInv_resetBlock. exact Hinv.
Qed.

Lemma worldInv_step (w : World) (e : Event) : worldInv w -> worldInv (step w e).
Proof.
  intros [Hs Ht]. unfold worldInv.
  destruct e; simpl.
  - split; [exact (stateInv_start _ Hs)|exact Ht].
  - split; [exact (stateInv_stop _ Hs)|exact Ht].
  - split; [exact (stateInv_resetBlock None _ Hs)|exact Ht].
  - destruct (stateInv_tick (generateNextStimulus rp rl) (ui w) Hs) as [H1 H2].
    destruct (tick (generateNextStimulus rp rl) (ui w)) as [s' ts]. simpl in *.
    split; [exact H1|]. apply Forall_app. split; assumption.
  - destruct (running (ui w)); simpl; [|split; assumption].
    split; [apply stateInv_handlePress; exact Hs|exact Ht].
  - destruct (nth_error (timers w) k) as [t|] eqn:Hk; simpl; [|split; assumption].
    split; [apply stateInv_fireTimer; exact Hs|apply Forall_remove_nth; exact Ht].
  - destruct Hs as (Hn & Hsp & Hb & Hk & Hrc & Hra & Htl & Hp & Hq).
    unfold tallyNonneg in Htl.
    split; [|exact Ht]. unfold stateInv, tallyNonneg, answerable in *. simpl.
    repeat split; try lia; auto.
  - destruct Hs as (Hn & Hsp & Hb & Hk & Hrc & Hra & Htl & Hp & Hq).
    unfold tallyNonneg in Htl.
    split; [|exact Ht]. unfold stateInv, tallyNonneg, answerable in *. simpl.
    repeat split; try lia; auto.
  - destruct Hs as (Hn & Hsp & Hb & Hk & Hrc & Hra & Htl & Hp & Hq).
    unfold tallyNonneg in Htl.
    split; [|exact Ht]. unfold stateInv, tallyNonneg, answerable in *. simpl.
    repeat split; try lia; auto.
  - split; [exact Hs|exact Ht].
  - split; [exact Hs|exact Ht].
  - split; [exact Hs|exact Ht].
Qed.

Lemma reachable_worldInv (w : World) : reachable w -> worldInv w.
Proof.
  induction 1 as [|w e Hw IH].
  - split; [exact stateInv_initial|constructor].
  - apply worldInv_step. exact IH.
Qed.

(** ** Quotients as cross-multiplications *)

Lemma ratio_pos (h a : Z) : 0 < a -> (ratio h a == h # Z.to_pos a)%Q.
Proof.
  intros Ha. unfold ratio.
  replace (a =? 0) with false by (symmetry; apply Z.eqb_neq; lia).
  destruct a as [|p|p]; try lia.
  unfold Qeq, Qdiv, Qmult, Qinv, inject_Z. simpl. lia.
Qed.

Lemma le_ratio_iff (num : Z) (den : positive) (h a : Z) :
  0 < a -> ((num # den <= ratio h a)%Q <-> num * a <= h * Zpos den).
Proof.
  intros Ha. rewrite (ratio_pos h a Ha).
  destruct a as [|p|p]; try lia. unfold Qle. simpl. lia.
Qed.

Lemma ratio_le_iff (num : Z) (den : positive) (h a : Z) :
  0 < a -> ((ratio h a <= num # den)%Q <-> h * Zpos den <= num * a).
Proof.
  intros Ha. rewrite (ratio_pos h a Ha).
  destruct a as [|p|p]; try lia. unfold Qle. simpl. lia.
Qed.

Lemma ratio_lt_iff (num : Z) (den : positive) (h a : Z) :
  0 < a -> ((ratio h a < num # den)%Q <-> h * Zpos den < num * a).
Proof.
  intros Ha. rewrite (ratio_pos h a Ha).
  destruct a as [|p|p]; try lia. unfold Qlt. simpl. lia.
Qed.

Lemma ratio_le_ratio (h1 a1 h2 a2 : Z) :
  0 < a1 -> 0 < a2 ->
  ((ratio h1 a1 <= ratio h2 a2)%Q <-> h1 * a2 <= h2 * a1).
Proof.
  intros H1 H2. rewrite (ratio_pos h1 a1 H1), (ratio_pos h2 a2 H2).
  destruct a1 as [|p1|p1]; try lia. destruct a2 as [|p2|p2]; try lia.
  unfold Qle. simpl. lia.
Qed.

Lemma ratio_unit_interval (h a : Z) :
  0 <= h <= a -> (0 <= ratio h a)%Q /\ (ratio h a <= 1)%Q.
Proof.
  intros H. destruct (Z.eq_dec a 0) as [E|E].
  - subst. rewrite ratio_zero. split; [apply Qle_refl|discriminate].
  - split.
    + apply (le_ratio_iff 0 1 h a); lia.
    + apply (ratio_le_iff 1 1 h a); lia.
Qed.

(** ** Properties of every reachable world *)



(** X2. In every reachable world the trial counter is the length of the
    stimulus stream; a component that is not running shows no stimulus; and
    a stimulus on show belongs to a running component, is the last entry of
    the stream, and at least one trial has started. *)
Theorem reachable_state_consistent (w : World) (Hw : reachable w) :
  trialIdx (ui w) = Z.of_nat (List.length (stream (ui w))) /\
  (running (ui w) = false -> current (ui w) = None) /\
  (forall c, current (ui w) = Some c ->
     running (ui w) = true /\ 1 <= trialIdx (ui w) /\
     at_index (stream (ui w)) (trialIdx (ui w) - 1) = Some c).
Proof.
  destruct (reachable_worldInv w Hw) as [(_ & _ & _ & Hk & Hrc & _) _].
  split; [exact Hk|]. split; [exact Hrc|].
  intros c Hc.
  pose proof (reachable_currentIsLast w Hw c Hc) as Hlast.
  rewrite <- Hk in Hlast.
  split; [|split].
  - destruct (running (ui w)) eqn:Hr; [reflexivity|].
    rewrite (Hrc eq_refl) in Hc. discriminate.
  - unfold at_index in Hlast.
    destruct (trialIdx (ui w) - 1 <? 0) eqn:E; [discriminate|].
    apply Z.ltb_ge in E. lia.
  - exact Hlast.
Qed.

Lemma reachable_state_consistent_witness :
  trialIdx (ui thirdTrialInFlight) =
  Z.of_nat (List.length (stream (ui thirdTrialInFlight))).
Proof.
  refine (proj1 (reachable_state_consistent thirdTrialInFlight _)).
  apply reachable_run. apply reachable_init.
Defined.

(** X3. In every reachable world, on each channel, hits plus false alarms
    never exceed the number of trials started, and stay strictly below it
    while the channel of the trial on show can still be answered: a trial
    yields at most one scored press per channel. *)
Theorem scored_presses_within_trials (w : World) (Hw : reachable w) :
  posHits (tally (ui w)) + posFalse (tally (ui w))
    + answerable (ui w) (allowPressPos (ui w)) <= trialIdx (ui w) /\
  sndHits (tally (ui w)) + sndFalse (tally (ui w))
    + answerable (ui w) (allowPressSnd (ui w)) <= trialIdx (ui w) /\
  posHits (tally (ui w)) + posFalse (tally (ui w)) <= trialIdx (ui w) /\
  sndHits (tally (ui w)) + sndFalse (tally (ui w)) <= trialIdx (ui w).
Proof.
  destruct (reachable_worldInv w Hw) as [(_ & _ & _ & _ & _ & _ & _ & Hp & Hq) _].
  pose proof (answerable_bounds (ui w) (allowPressPos (ui w))).
  pose proof (answerable_bounds (ui w) (allowPressSnd (ui w))).
  repeat split; lia.
Qed.

Lemma scored_presses_within_trials_witness :
  let w := run thirdTrialInFlight [Press KPos; Press KPos; Press KSnd; Timeout 0] in
  posHits (tally (ui w)) + posFalse (tally (ui w)) <= trialIdx (ui w).
Proof.
  cbv zeta.
  refine (proj1 (proj2 (proj2 (scored_presses_within_trials _ _)))).
  apply reachable_run. apply reachable_run. apply reachable_init.
Defined.

(** X4. In every reachable world the six counters are non-negative and the
    three accuracy figures lie between 0 and 1. *)
Theorem reachable_accuracy_unit_interval (w : World) (Hw : reachable w) :
  tallyNonneg (tally (ui w)) /\
  (0 <= posAcc (tally (ui w)) <= 1)%Q /\
  (0 <= sndAcc (tally (ui w)) <= 1)%Q /\
  (0 <= combinedAcc (tally (ui w)) <= 1)%Q.
Proof.
  destruct (reachable_worldInv w Hw) as [(_ & _ & _ & _ & _ & _ & Ht & _) _].
  split; [exact Ht|].
  destruct Ht as (H1 & H2 & H3 & H4 & H5 & H6).
  unfold posAcc, sndAcc, combinedAcc, combinedHits, combinedAttempts,
    posAttempts, sndAttempts.
  repeat split; apply ratio_unit_interval; lia.
Qed.

Lemma reachable_accuracy_unit_interval_witness :
  let w := run thirdTrialInFlight [Press KPos; Timeout 0] in
  (0 <= combinedAcc (tally (ui w)) <= 1)%Q.
Proof.
  cbv zeta.
  refine (proj2 (proj2 (proj2 (reachable_accuracy_unit_interval _ _)))).
  apply reachable_run. apply reachable_run. apply reachable_init.
Defined.



(** X6. [start()] enables audio and nothing disables it, so while the
    component is running every new stimulus is sounded: spoken with the
    current voice and language in speech mode, otherwise beeped at the
    frequency of its letter. *)
Theorem running_trial_presents_sound (w : World) (next : Stimulus)
  (Hw : reachable w) (Hrun : running (ui w) = true) :
  audioEnabled (ui w) = true /\
  presentSound (ui w) next =
    Some (if useSpeech (ui w)
          then Speak (letter next) (voice (ui w)) (lang (ui w))
          else Beep (beepFreq (letter next))).
Proof.
  destruct (reachable_worldInv w Hw) as [(_ & _ & _ & _ & _ & Hra & _) _].
  specialize (Hra Hrun). split; [exact Hra|].
  unfold presentSound. rewrite Hra. reflexivity.
Qed.

Lemma running_trial_presents_sound_witness :
  presentSound (ui thirdTrialInFlight) (generateNextStimulus 4 5) =
  Some (Beep 650).
Proof.
  refine (proj2 (running_trial_presents_sound thirdTrialInFlight
                   (generateNextStimulus 4 5) _ _)).
  - apply reachable_run. apply reachable_init.
  - vm_compute. reflexivity.
Defined.



(** ** Stimuli, beeps and the grid *)

Lemma indexOfFrom_not_in (l : list string) (x : string) (i : Z) :
  ~ In x l -> indexOfFrom l x i = -1.
Proof.
  revert i. induction l as [|y l IH]; intros i Hin; simpl; [reflexivity|].
  destruct (String.eqb_spec y x) as [E|E].
  - exfalso. apply Hin. left. exact E.
  - apply IH. intros H. apply Hin. right. exact H.
Qed.

(** X8. With [randInt] results in range ([rp < 9], [rl < 11]) the generated
    stimulus has its position inside the grid, where it is one of the cells,
    and its letter in the letter pool. *)
Theorem generated_stimulus_valid (rp rl : nat)
  (Hp : (rp < 9)%nat) (Hl : (rl < 11)%nat) :
  0 <= pos (generateNextStimulus rp rl) < GRID_SIZE * GRID_SIZE /\
  In (pos (generateNextStimulus rp rl)) grid /\
  In (letter (generateNextStimulus rp rl)) LETTER_POOL.
Proof.
  split; [|split].
  - unfold generateNextStimulus, GRID_SIZE. cbn [pos]. lia.
  - unfold generateNextStimulus, grid, GRID_SIZE. cbn [pos].
    apply in_map. apply in_seq. simpl. lia.
  - unfold generateNextStimulus. cbn [letter].
    apply nth_In. exact Hl.
Qed.

Lemma generated_stimulus_valid_witness :
  In (letter (generateNextStimulus 8 10)) LETTER_POOL.
Proof.
  refine (proj2 (proj2 (generated_stimulus_valid 8 10 _ _))); lia.
Defined.

(** X9. For the letter at index [rl] of the pool, [indexOf] gives [rl] back,
    so its beep is at [500 + 30 * rl] Hz, between 500 and 800; two pool
    letters with the same beep are the same letter; a letter outside the
    pool is beeped at 500 Hz. *)
Theorem beep_frequency (rl : nat) (Hl : (rl < 11)%nat) :
  indexOf LETTER_POOL (nth rl LETTER_POOL ""%string) = Z.of_nat rl /\
  beepFreq (nth rl LETTER_POOL ""%string) = 500 + 30 * Z.of_nat rl /\
  500 <= beepFreq (nth rl LETTER_POOL ""%string) <= 800 /\
  (forall rl' : nat, (rl' < 11)%nat ->
     beepFreq (nth rl' LETTER_POOL ""%string) =
     beepFreq (nth rl LETTER_POOL ""%string) -> rl' = rl) /\
  (forall x : string, ~ In x LETTER_POOL -> beepFreq x = 500).
Proof.
  assert (Hidx : forall k : nat, (k < 11)%nat ->
            indexOf LETTER_POOL (nth k LETTER_POOL ""%string) = Z.of_nat k).
  { intros k Hk.
    do 11 (destruct k as [|k]; [vm_compute; reflexivity|]). lia. }
  assert (Hfreq : forall k : nat, (k < 11)%nat ->
            beepFreq (nth k LETTER_POOL ""%string) = 500 + 30 * Z.of_nat k).
  { intros k Hk. unfold beepFreq. rewrite (Hidx k Hk).
    replace (0 <=? Z.of_nat k) with true by (symmetry; apply Z.leb_le; lia).
    lia. }
  split; [exact (Hidx rl Hl)|]. split; [exact (Hfreq rl Hl)|].
  split; [rewrite (Hfreq rl Hl); lia|]. split.
  - intros rl' Hl' E. rewrite (Hfreq rl' Hl'), (Hfreq rl Hl) in E. lia.
  - intros x Hx. unfold beepFreq, indexOf.
    rewrite (indexOfFrom_not_in LETTER_POOL x 0 Hx). reflexivity.
Qed.

Lemma beep_frequency_witness :
  beepFreq (nth 10 LETTER_POOL ""%string) = 500 + 30 * Z.of_nat 10.
Proof.
  refine (proj1 (proj2 (beep_frequency 10 _))). lia.
Defined.

(** X10. The grid lights exactly the cell whose index is the position of the
    current stimulus, and that cell shows the stimulus letter; with a
    position outside [0, 8], or with no current stimulus, no cell is lit and
    every cell is blank. *)
Theorem one_active_cell (c : Stimulus) :
  filter (isActive (Some c)) grid =
    (if (0 <=? pos c) && (pos c <? GRID_SIZE * GRID_SIZE) then [pos c] else []) /\
  map (cellText (Some c)) (filter (isActive (Some c)) grid) =
    (if (0 <=? pos c) && (pos c <? GRID_SIZE * GRID_SIZE) then [letter c] else []) /\
  (forall i, isActive (Some c) i = false -> cellText (Some c) i = ""%string) /\
  filter (isActive None) grid = [] /\
  (forall i, cellText None i = ""%string).
Proof.
  assert (Hcases : pos c < 0 \/ pos c = 0 \/ pos c = 1 \/ pos c = 2 \/
                   pos c = 3 \/ pos c = 4 \/ pos c = 5 \/ pos c = 6 \/
                   pos c = 7 \/ pos c = 8 \/ 9 <= pos c) by lia.
  assert (Hf : filter (isActive (Some c)) grid =
               (if (0 <=? pos c) && (pos c <? GRID_SIZE * GRID_SIZE)
                then [pos c] else [])).
  { unfold grid, GRID_SIZE, isActive. simpl.
    destruct Hcases as [H|[H|[H|[H|[H|[H|[H|[H|[H|[H|H]]]]]]]]]];
      try (rewrite H; reflexivity).
    - replace (0 <=? pos c) with false by (symmetry; apply Z.leb_gt; lia).
      repeat (match goal with
              | |- context [pos c =? ?k] =>
                  replace (pos c =? k) with false
                    by (symmetry; apply Z.eqb_neq; lia)
              end).
      reflexivity.
    - replace (pos c <? 9) with false by (symmetry; apply Z.ltb_ge; lia).
      rewrite andb_false_r.
      repeat (match goal with
              | |- context [pos c =? ?k] =>
                  replace (pos c =? k) with false
                    by (symmetry; apply Z.eqb_neq; lia)
              end).
      reflexivity. }
  split; [exact Hf|]. split; [|split; [|split]].
  - rewrite Hf.
    destruct ((0 <=? pos c) && (pos c <? GRID_SIZE * GRID_SIZE)); [|reflexivity].
    simpl. unfold cellText, isActive. rewrite Z.eqb_refl. reflexivity.
  - intros i Hi. unfold cellText. rewrite Hi. reflexivity.
  - reflexivity.
  - intros i. reflexivity.
Qed.

(** ** How the handlers compose *)

(** X11. The two response channels are independent: a position press leaves
    the sound counters, the sound channel's flag and both miss counters
    untouched (and symmetrically), it changes nothing but the tally and its
    own flag, and pressing both buttons gives the same state in either
    order. *)
Theorem press_channels_independent (s : State) :
  handlePress KPos (handlePress KSnd s) = handlePress KSnd (handlePress KPos s) /\
  (let p := handlePress KPos s in
   sndHits (tally p) = sndHits (tally s) /\ sndFalse (tally p) = sndFalse (tally s) /\
   sndMisses (tally p) = sndMisses (tally s) /\ posMisses (tally p) = posMisses (tally s) /\
   allowPressSnd p = allowPressSnd s /\
   p = setAllowPressPos (allowPressPos p) (setTally (tally p) s)) /\
  (let q := handlePress KSnd s in
   posHits (tally q) = posHits (tally s) /\ posFalse (tally q) = posFalse (tally s) /\
   posMisses (tally q) = posMisses (tally s) /\ sndMisses (tally q) = sndMisses (tally s) /\
   allowPressPos q = allowPressPos s /\
   q = setAllowPressSnd (allowPressSnd q) (setTally (tally q) s)).
Proof.
  destruct s as [r nn sp bl ti st [cur|] ta ap asn ae us vo la];
    unfold handlePress; cbn [current]; [|repeat split].
  unfold pressUpdater; cbn -[posMatchAt sndMatchAt Z.sub Z.of_nat].
  destruct ap, asn; cbn -[posMatchAt sndMatchAt Z.sub Z.of_nat];
    repeat match goal with
           | |- context [posMatchAt ?a ?b ?c] => destruct (posMatchAt a b c)
           | |- context [sndMatchAt ?a ?b ?c] => destruct (sndMatchAt a b c)
           end;
    repeat split.
Qed.

(** X12. While the trial on show has an index below [n] (that is, while
    [trialIdx <= n]), a press on an open channel is always scored as a false
    alarm, never as a hit. *)
Theorem early_press_is_false_alarm (w : World) (kind : Kind) (cur : Stimulus)
  (Hw : reachable w)
  (Hcur : current (ui w) = Some cur)
  (Hallow : allowPress kind (ui w) = true)
  (Hearly : trialIdx (ui w) <= n (ui w)) :
  tally (ui (step w (Press kind))) = recordPress kind false (tally (ui w)).
Proof.
  destruct (reachable_worldInv w Hw) as [(_ & _ & _ & Hk & Hrc & _) _].
  assert (Hrun : running (ui w) = true).
  { destruct (running (ui w)); [reflexivity|].
    rewrite (Hrc eq_refl) in Hcur. discriminate. }
  simpl. rewrite Hrun. simpl.
  rewrite (handlePress_tally kind (ui w) cur Hcur), Hallow.
  f_equal. unfold pressMatch, posMatchAt, sndMatchAt.
  replace (0 <=? Z.of_nat (List.length (stream (ui w))) - 1 - n (ui w)) with false
    by (symmetry; apply Z.leb_gt; lia).
  destruct kind; reflexivity.
Qed.

Lemma early_press_is_false_alarm_witness :
  let w := run initialWorld [Start; Tick 3 3; Tick 3 3] in
  tally (ui (step w (Press KPos))) = recordPress KPos false (tally (ui w)).
Proof.
  cbv zeta.
  apply (early_press_is_false_alarm
           (run initialWorld [Start; Tick 3 3; Tick 3 3]) KPos
           (generateNextStimulus 3 3)).
  - apply reachable_run. apply reachable_init.
  - vm_compute. reflexivity.
  - vm_compute. reflexivity.
  - vm_compute. discriminate.
Defined.

(** X13. Between resets the tally only grows: an event that is not a reset
    ([start()], the Reset Block button, a reset timer) leaves every counter
    at least as large as it was and adds at most 2 in total; a reset leaves
    the empty tally. *)
Theorem tally_only_grows_between_resets (w : World) (e : Event) :
  if isReset w e then tally (ui (step w e)) = emptyTally
  else tallyLe (tally (ui w)) (tally (ui (step w e))) /\
       tallyTotal (tally (ui (step w e))) <= tallyTotal (tally (ui w)) + 2.
Proof.
  assert (Hsame : forall t : Tally, tallyLe t t /\ tallyTotal t <= tallyTotal t + 2).
  { intros t. unfold tallyLe. repeat split; lia. }
  destruct e; simpl; try reflexivity; try apply Hsame.
  - unfold tick. destruct (negb (running (ui w))); simpl; [apply Hsame|].
    destruct (blockLen (ui w) <=? trialIdx (ui w)); simpl; apply Hsame.
  - destruct (running (ui w)); [|apply Hsame]. simpl.
    destruct (current (ui w)) as [cur|] eqn:Hcur.
    + rewrite (handlePress_tally kind (ui w) cur Hcur).
      destruct (allowPress kind (ui w)); [|apply Hsame].
      unfold tallyLe, tallyTotal.
      destruct kind; destruct (pressMatch _ _ _); simpl; repeat split; lia.
    + rewrite handlePress_no_current by exact Hcur. apply Hsame.
  - destruct (nth_error (timers w) k) as [[render next|nextN]|] eqn:Hk; simpl.
    + destruct (missUpdater_fields render next (tally (ui w)))
        as (E1 & E2 & E3 & E4 & E5 & E6).
      pose proof (posMissDue_bounds (MissTimer render next)).
      pose proof (sndMissDue_bounds (MissTimer render next)).
      unfold tallyLe, tallyTotal. rewrite E1, E2, E3, E4, E5, E6.
      repeat split; lia.
    + reflexivity.
    + apply Hsame.
Qed.

(** X14. [start()] after [stop()] is [start()]: stopping and starting again
    begins a fresh block exactly as a first start does.  [start], [stop] and
    [resetBlock] are idempotent, and a reset right after [start()] changes
    nothing. *)
Theorem start_stop_reset_compose (s : State) (o : option Z) :
  start (stop s) = start s /\
  start (start s) = start s /\
  stop (stop s) = stop s /\
  resetBlock o (resetBlock o s) = resetBlock o s /\
  resetBlock None (start s) = start s /\
  (running (start s) = true /\ trialIdx (start s) = 0 /\
   stream (start s) = [] /\ current (start s) = None /\
   tally (start s) = emptyTally /\ n (start s) = n s).
Proof.
  destruct o as [v|]; repeat split.
Qed.

Lemma run_snoc (w : World) (es : list Event) (e : Event) :
  run w (es ++ [e]) = step (run w es) e.
Proof. unfold run. rewrite fold_left_app. reflexivity. Qed.

(** X15. The block-end tick neither stops the interval nor marks the block as
    finished: as long as the reset has not fired, every further tick leaves
    the state alone and schedules one more reset with the same [nextN].
    The pile is harmless only when the resets fire back to back: firing a
    second one right after the first changes nothing. *)
Theorem block_end_ticks_pile_up (w : World) (draws : list (nat * nat))
  (Hrun : running (ui w) = true)
  (Hend : blockLen (ui w) <= trialIdx (ui w)) :
  let r := ResetTimer (blockEndNextN (tally (ui w)) (n (ui w))) in
  run w (map (fun d => Tick (fst d) (snd d)) draws) =
    mkWorld (ui w) (timers w ++ repeat r (List.length draws)) /\
  (forall s : State, fireTimer r (fireTimer r s) = fireTimer r s).
Proof.
  cbv zeta. split; [|intros s; reflexivity].
  induction draws as [|d draws IH] using rev_ind.
  - simpl. rewrite app_nil_r. symmetry. apply world_eta.
  - rewrite map_app. simpl map. rewrite run_snoc, IH.
    simpl. unfold tick. rewrite Hrun. simpl.
    replace (blockLen (ui w) <=? trialIdx (ui w)) with true
      by (symmetry; apply Z.leb_le; exact Hend).
    rewrite length_app. simpl List.length. rewrite repeat_app. simpl repeat.
    rewrite <- app_assoc. reflexivity.
Qed.

Lemma block_end_ticks_pile_up_witness :
  run quietBlock [Tick 0 0; Tick 1 1] =
  mkWorld (ui quietBlock)
          (timers quietBlock ++
           repeat (ResetTimer (blockEndNextN (tally (ui quietBlock))
                                             (n (ui quietBlock)))) 2).
Proof.
  refine (proj1 (block_end_ticks_pile_up quietBlock [(0, 0); (1, 1)]%nat _ _)).
  - vm_compute. reflexivity.
  - vm_compute. discriminate.
Defined.

(** X16. Within an uninterrupted block the stimulus stream is append-only:
    the stream at any later point extends the earlier one, the trial counter
    has grown by the number of stimuli appended, and [n] and [running] are
    what they were. *)
Theorem block_stream_append_only (w0 w : World) (es : list Event)
  (Hrun : blockRun w0 es = Some w) :
  exists suffix : list Stimulus,
    stream (ui w) = stream (ui w0) ++ suffix /\
    trialIdx (ui w) = trialIdx (ui w0) + Z.of_nat (List.length suffix) /\
    n (ui w) = n (ui w0) /\
    running (ui w) = running (ui w0).
Proof.
  revert w0 Hrun. induction es as [|e es IH]; intros w0 Hrun; simpl in Hrun.
  - inversion Hrun; subst. exists []. rewrite app_nil_r. simpl.
    repeat split. lia.
  - destruct (blockEvent w0 e) eqn:Hev; [|discriminate].
    destruct (IH (step w0 e) Hrun) as (suf & Hs & Hk & Hn & Hr).
    assert (Hstep : exists pre : list Stimulus,
              stream (ui (step w0 e)) = stream (ui w0) ++ pre /\
              trialIdx (ui (step w0 e)) = trialIdx (ui w0) + Z.of_nat (List.length pre) /\
              n (ui (step w0 e)) = n (ui w0) /\
              running (ui (step w0 e)) = running (ui w0)).
    { destruct e; simpl in Hev; try discriminate;
        try (exists []; rewrite app_nil_r; simpl; repeat split; lia).
      - apply andb_true_iff in Hev. destruct Hev as [Hr0 Hlt].
        apply Z.ltb_lt in Hlt.
        exists [generateNextStimulus rp rl].
        simpl. unfold tick. rewrite Hr0. simpl.
        replace (blockLen (ui w0) <=? trialIdx (ui w0)) with false
          by (symmetry; apply Z.leb_gt; exact Hlt).
        simpl. repeat split; try lia. exact Hr0.
      - exists []. rewrite app_nil_r. simpl.
        destruct (running (ui w0)) eqn:Hr0; simpl; [|repeat split; try lia; auto].
        unfold handlePress. destruct (current (ui w0)); [|repeat split; try lia; auto].
        destruct kind; simpl; repeat split; try lia; auto.
      - exists []. rewrite app_nil_r. simpl.
        destruct (nth_error (timers w0) k) as [[render next|nextN]|];
          try discriminate. simpl. repeat split. lia. }
    destruct Hstep as (pre & Hs' & Hk' & Hn' & Hr').
    exists (pre ++ suf). rewrite Hs, Hs', Hk, Hk', Hn, Hn', Hr, Hr'.
    rewrite app_assoc, length_app. repeat split. lia.
Qed.

Lemma block_stream_append_only_witness :
  exists suffix : list Stimulus,
    stream (ui quietBlock) = stream (ui (step initialWorld Start)) ++ suffix /\
    trialIdx (ui quietBlock) =
      trialIdx (ui (step initialWorld Start)) + Z.of_nat (List.length suffix) /\
    n (ui quietBlock) = n (ui (step initialWorld Start)) /\
    running (ui quietBlock) = running (ui (step initialWorld Start)).
Proof.
  apply (block_stream_append_only (step initialWorld Start) quietBlock
           (quietTrials 20 0)).
  vm_compute. reflexivity.
Defined.

Lemma handlePress_keeps_misses (kind : Kind) (s : State) :
  posMisses (tally (handlePress kind s)) = posMisses (tally s) /\
  sndMisses (tally (handlePress kind s)) = sndMisses (tally s).
Proof.
  destruct (current s) as [cur|] eqn:Hcur.
  - rewrite (handlePress_tally kind s cur Hcur).
    destruct (allowPress kind s); [|split; reflexivity].
    destruct kind; destruct (pressMatch _ s cur); split; reflexivity.
  - rewrite handlePress_no_current by exact Hcur. split; reflexivity.
Qed.

Lemma step_timeout (w : World) (k : nat) (t : Timer) :
  nth_error (timers w) k = Some t ->
  step w (Timeout k) = mkWorld (fireTimer t (ui w)) (remove_nth k (timers w)).
Proof. intros H. simpl. rewrite H. reflexivity. Qed.

Lemma presses_keep_timers_and_misses (w : World) (ps : list Kind) :
  timers (run w (map Press ps)) = timers w /\
  posMisses (tally (ui (run w (map Press ps)))) = posMisses (tally (ui w)) /\
  sndMisses (tally (ui (run w (map Press ps)))) = sndMisses (tally (ui w)).
Proof.
  revert w. induction ps as [|p ps IH]; intros w; [repeat split|].
  change (run w (map Press (p :: ps)))
    with (run (step w (Press p)) (map Press ps)).
  destruct (IH (step w (Press p))) as (H1 & H2 & H3).
  rewrite H1, H2, H3. simpl.
  destruct (running (ui w)); [|repeat split]. simpl.
  destruct (handlePress_keeps_misses p (ui w)) as [P Q].
  repeat split; assumption.
Qed.

(** X17. What a trial's miss timer will record is settled by the tick that
    schedules it: whatever buttons are pressed afterwards, the timer adds a
    position miss exactly when the new stimulus is a position match and
    [allowPressPos] was [true] in the render before the tick, and likewise
    for sound.  A press during the trial does not withdraw the miss, and a
    channel left closed by the previous trial never gets one. *)
Theorem miss_decided_at_tick (w : World) (rp rl : nat) (ps : list Kind)
  (Hrun : running (ui w) = true)
  (Hlt : trialIdx (ui w) < blockLen (ui w)) :
  let next := generateNextStimulus rp rl in
  let prevIdx := Z.of_nat (List.length (stream (ui w))) - n (ui w) in
  let w1 := run (step w (Tick rp rl)) (map Press ps) in
  let k := List.length (timers w) in
  nth_error (timers w1) k = Some (MissTimer (ui w) next) /\
  posMisses (tally (ui (step w1 (Timeout k)))) =
    posMisses (tally (ui w)) +
    (if posMatchAt (stream (ui w)) prevIdx next && allowPressPos (ui w)
     then 1 else 0) /\
  sndMisses (tally (ui (step w1 (Timeout k)))) =
    sndMisses (tally (ui w)) +
    (if sndMatchAt (stream (ui w)) prevIdx next && allowPressSnd (ui w)
     then 1 else 0).
Proof.
  cbv zeta.
  destruct (presses_keep_timers_and_misses (step w (Tick rp rl)) ps)
    as (Ht & Hp & Hs).
  assert (Htick : step w (Tick rp rl) =
            mkWorld (fst (tick (generateNextStimulus rp rl) (ui w)))
                    (timers w ++ [MissTimer (ui w) (generateNextStimulus rp rl)])).
  { simpl. unfold tick. rewrite Hrun. simpl.
    replace (blockLen (ui w) <=? trialIdx (ui w)) with false
      by (symmetry; apply Z.leb_gt; exact Hlt).
    reflexivity. }
  assert (Htally : tally (ui (step w (Tick rp rl))) = tally (ui w)).
  { rewrite Htick. simpl. unfold tick. rewrite Hrun. simpl.
    destruct (blockLen (ui w) <=? trialIdx (ui w)); reflexivity. }
  assert (Hnth : nth_error (timers (run (step w (Tick rp rl)) (map Press ps)))
                   (List.length (timers w)) =
                 Some (MissTimer (ui w) (generateNextStimulus rp rl))).
  { rewrite Ht, Htick. simpl timers.
    rewrite nth_error_app2 by lia. rewrite Nat.sub_diag. reflexivity. }
  split; [exact Hnth|].
  destruct (missUpdater_fields (ui w) (generateNextStimulus rp rl)
              (tally (ui (run (step w (Tick rp rl)) (map Press ps)))))
    as (_ & _ & _ & _ & E5 & E6).
  rewrite (step_timeout _ _ _ Hnth). cbn [ui fireTimer].
  change (tally (setTally ?t ?s)) with t.
  rewrite E5, E6, Hp, Hs, Htally. split; reflexivity.
Qed.

Lemma miss_decided_at_tick_witness :
  let w := run initialWorld [Start; Tick 0 0; Timeout 0; Tick 1 1; Timeout 0] in
  nth_error (timers (run (step w (Tick 0 2)) (map Press [KPos; KPos])))
            (List.length (timers w)) =
  Some (MissTimer (ui w) (generateNextStimulus 0 2)).
Proof.
  cbv zeta.
  refine (proj1 (miss_decided_at_tick
                   (run initialWorld [Start; Tick 0 0; Timeout 0; Tick 1 1; Timeout 0])
                   0 2 [KPos; KPos] _ _)).
  - vm_compute. reflexivity.
  - vm_compute. reflexivity.
Defined.

(** ** The difficulty rule on counts *)

Lemma geThreshold_ratio (h a : Z) :
  0 <= a -> geThreshold (ratio h a) = (0 <? a) && (3 * a <=? 4 * h).
Proof.
  intros Ha. destruct (Z.eq_dec a 0) as [E|E].
  - subst. reflexivity.
  - replace (0 <? a) with true by (symmetry; apply Z.ltb_lt; lia).
    rewrite andb_true_l.
    destruct (Z.leb_spec (3 * a) (4 * h)) as [C|C].
    + apply geThreshold_iff. apply (le_ratio_iff 75 100 h a); lia.
    + destruct (geThreshold (ratio h a)) eqn:G; [|reflexivity].
      apply geThreshold_iff in G. apply (le_ratio_iff 75 100 h a) in G; lia.
Qed.

Lemma ltThreshold_ratio (h a : Z) :
  0 <= a -> ltThreshold (ratio h a) = (a =? 0) || (20 * h <? 11 * a).
Proof.
  intros Ha. destruct (Z.eq_dec a 0) as [E|E].
  - subst. reflexivity.
  - replace (a =? 0) with false by (symmetry; apply Z.eqb_neq; lia).
    rewrite orb_false_l.
    destruct (Z.ltb_spec (20 * h) (11 * a)) as [C|C].
    + apply ltThreshold_iff. apply (ratio_lt_iff 55 100 h a); lia.
    + destruct (ltThreshold (ratio h a)) eqn:G; [|reflexivity].
      apply ltThreshold_iff in G. apply (ratio_lt_iff 55 100 h a) in G; lia.
Qed.

(** X18. With [h] combined hits out of [a >= 0] combined attempts, the
    block-end rule is a rule on integers: [n + 1] when [a > 0] and
    [3 a <= 4 h]; otherwise [max 1 (n - 1)] when [a = 0] or [20 h < 11 a];
    otherwise [n].  In particular a block without any scored attempt lowers
    [n]. *)
Theorem blockEnd_rule_on_counts (t : Tally) (curN : Z)
  (Ha : 0 <= combinedAttempts t) :
  blockEndNextN t curN = nextNByCounts (combinedHits t) (combinedAttempts t) curN /\
  (combinedAttempts t = 0 -> blockEndNextN t curN = Z.max 1 (curN - 1)).
Proof.
  assert (E : blockEndNextN t curN =
              nextNByCounts (combinedHits t) (combinedAttempts t) curN).
  { rewrite blockEndNextN_acc. unfold combinedAcc, nextNByCounts.
    rewrite (geThreshold_ratio _ _ Ha), (ltThreshold_ratio _ _ Ha). reflexivity. }
  split; [exact E|].
  intros H0. rewrite E. unfold nextNByCounts. rewrite H0. reflexivity.
Qed.

Lemma blockEnd_rule_on_counts_witness :
  blockEndNextN (mkTally 11 9 4 0 0 7) 5 = nextNByCounts 11 20 5.
Proof.
  refine (proj1 (blockEnd_rule_on_counts (mkTally 11 9 4 0 0 7) 5 _)).
  vm_compute. discriminate.
Defined.

(** X19. For [n >= 1] the block-end rule moves [n] by at most one step, and
    it is monotone in the combined accuracy: a block with a higher combined
    accuracy never gets a lower next [n]. *)
Theorem difficulty_step_monotone (t1 t2 : Tally) (curN : Z) (Hn : 1 <= curN) :
  curN - 1 <= blockEndNextN t1 curN <= curN + 1 /\
  ((combinedAcc t1 <= combinedAcc t2)%Q ->
   blockEndNextN t1 curN <= blockEndNextN t2 curN).
Proof.
  rewrite !blockEndNextN_acc. split.
  - destruct (geThreshold _); [lia|]. destruct (ltThreshold _); lia.
  - intros Hle.
    destruct (geThreshold (combinedAcc t1)) eqn:G1.
    + apply geThreshold_iff in G1.
      replace (geThreshold (combinedAcc t2)) with true; [lia|].
      symmetry. apply geThreshold_iff. eapply Qle_trans; eassumption.
    + destruct (geThreshold (combinedAcc t2)) eqn:G2.
      * destruct (ltThreshold (combinedAcc t1)); lia.
      * destruct (ltThreshold (combinedAcc t1)) eqn:L1.
        -- destruct (ltThreshold (combinedAcc t2)); lia.
        -- replace (ltThreshold (combinedAcc t2)) with false; [lia|].
           symmetry. destruct (ltThreshold (combinedAcc t2)) eqn:L2; [|reflexivity].
           apply ltThreshold_iff in L2.
           assert (Hlt : (combinedAcc t1 < 55 # 100)%Q)
             by (eapply Qle_lt_trans; eassumption).
           apply ltThreshold_iff in Hlt. congruence.
Qed.

Lemma difficulty_step_monotone_witness :
  blockEndNextN (mkTally 3 7 0 2 8 0) 3 <= blockEndNextN (mkTally 8 2 0 7 3 0) 3.
Proof.
  refine (proj2 (difficulty_step_monotone (mkTally 3 7 0 2 8 0)
                   (mkTally 8 2 0 7 3 0) 3 _) _).
  - lia.
  - vm_compute. discriminate.
Defined.

(** X20. When both channels have scored attempts, the combined accuracy lies
    between the two channel accuracies; when one channel has none (and its
    counters are non-negative), the combined accuracy is the accuracy of the
    other channel. *)
Theorem combined_accuracy_between (t : Tally) (Hnn : tallyNonneg t) :
  (0 < posAttempts t -> 0 < sndAttempts t ->
   ((posAcc t <= sndAcc t)%Q ->
      (posAcc t <= combinedAcc t)%Q /\ (combinedAcc t <= sndAcc t)%Q) /\
   ((sndAcc t <= posAcc t)%Q ->
      (sndAcc t <= combinedAcc t)%Q /\ (combinedAcc t <= posAcc t)%Q)) /\
  (posAttempts t = 0 -> combinedAcc t = sndAcc t) /\
  (sndAttempts t = 0 -> combinedAcc t = posAcc t).
Proof.
  destruct Hnn as (H1 & H2 & H3 & H4 & H5 & H6).
  unfold posAcc, sndAcc, combinedAcc, combinedHits, combinedAttempts,
    posAttempts, sndAttempts.
  split; [|split].
  - intros Hp Hs. split; intros Hle.
    + pose proof (proj1 (ratio_le_ratio _ _ _ _ Hp Hs) Hle) as Hz.
      split; apply ratio_le_ratio; try lia; nia.
    + pose proof (proj1 (ratio_le_ratio _ _ _ _ Hs Hp) Hle) as Hz.
      split; apply ratio_le_ratio; try lia; nia.
  - intros Hp. f_equal; lia.
  - intros Hs. f_equal; lia.
Qed.

Lemma combined_accuracy_between_witness :
  (posAcc (mkTally 1 3 0 3 1 0) <= combinedAcc (mkTally 1 3 0 3 1 0))%Q.
Proof.
  refine (proj1 (proj1 (proj1 (combined_accuracy_between (mkTally 1 3 0 3 1 0) _)
                          _ _) _)).
  - vm_compute. repeat split; discriminate.
  - vm_compute. reflexivity.
  - vm_compute. reflexivity.
  - vm_compute. discriminate.
Defined.

(** ** The interval hook *)

Section UseInterval.

Context {C : Type}.

Lemma runCleanup_empty (h : Hook C) : hookInv h -> runCleanup h = [].
Proof.
  unfold hookInv, runCleanup.
  destruct (depDelay h) as [[d|]|].
  - intros (id & Hl & Hc). rewrite Hc, Hl. unfold clearInterval. simpl.
    rewrite Nat.eqb_refl. reflexivity.
  - intros [Hl Hc]. rewrite Hc. exact Hl.
  - intros [Hl Hc]. rewrite Hc. exact Hl.
Qed.

Lemma sameDelay_eq (a b : option Z) : sameDelay a b = true -> a = b.
Proof.
  destruct a as [x|], b as [y|]; simpl; try discriminate; try reflexivity.
  intros H. apply Z.eqb_eq in H. subst. reflexivity.
Qed.

Lemma renderHook_spec (cb : C) (delay : option Z) (h : Hook C) :
  hookInv h ->
  hookInv (renderHook cb delay h) /\
  savedCallback (renderHook cb delay h) = Some cb /\
  depDelay (renderHook cb delay h) = Some delay.
Proof.
  intros Hinv. pose proof (runCleanup_empty h Hinv) as Hclean.
  unfold renderHook.
  destruct (depDelay h) as [d0|] eqn:Hd.
  - destruct (sameDelay d0 delay) eqn:Hsame.
    + apply sameDelay_eq in Hsame. subst d0.
      unfold hookInv in *. simpl. rewrite Hd in *. repeat split. exact Hinv.
    + destruct delay as [d|]; unfold hookInv; simpl; rewrite Hclean.
      * repeat split. exists (nextId h). split; reflexivity.
      * repeat split.
  - destruct delay as [d|]; unfold hookInv; simpl; rewrite Hclean.
    + repeat split. exists (nextId h). split; reflexivity.
    + repeat split.
Qed.

Lemma unmountHook_inv (h : Hook C) : hookInv h -> hookInv (unmountHook h).
Proof.
  intros Hinv. unfold hookInv, unmountHook. simpl.
  split; [apply runCleanup_empty; exact Hinv|reflexivity].
Qed.

Lemma hookRun_inv (ops : list (HookOp C)) (h : Hook C) :
  hookInv h -> hookInv (hookRun ops h).
Proof.
  revert h. induction ops as [|op ops IH]; intros h Hinv; [exact Hinv|].
  simpl. apply IH. destruct op as [cb delay|]; simpl.
  - apply renderHook_spec. exact Hinv.
  - apply unmountHook_inv. exact Hinv.
Qed.

Lemma hookRun_last_render (ops : list (HookOp C)) (cb : C) (delay : option Z) :
  let h := hookRun (ops ++ [HRender cb delay]) unmounted in
  hookInv h /\ savedCallback h = Some cb /\ depDelay h = Some delay.
Proof.
  cbv zeta. unfold hookRun. rewrite fold_left_app. simpl.
  apply renderHook_spec. apply (hookRun_inv ops unmounted).
  unfold hookInv. simpl. split; reflexivity.
Qed.

(** X21. Whatever renders and unmounts came before, after a render with
    callback [cb] and delay [delay] the hook holds [cb] as the callback to
    call, and the browser runs no interval of the hook when [delay] is
    [null] and exactly one, with period [delay], otherwise, which calls
    [cb] when it fires; no interval of an earlier render survives.
    Unmounting leaves no interval.  For the component, which passes
    [running ? speedMs : null], the tick interval exists exactly while
    [running], with period [speedMs]. *)
Theorem useInterval_single_interval
  (ops : list (HookOp C)) (cb : C) (delay : option Z) (s : State) :
  let h := hookRun (ops ++ [HRender cb delay]) unmounted in
  let hs := hookRun (ops ++ [HRender cb (intervalDelay s)]) unmounted in
  savedCallback h = Some cb /\
  match delay with
  | None => live h = []
  | Some d =>
      exists id : nat, live h = [(id, d)] /\ intervalFires h id = Some cb
  end /\
  live (hookRun (ops ++ [HUnmount]) unmounted) = [] /\
  (if running s then exists id : nat, live hs = [(id, speedMs s)]
   else live hs = []).
Proof.
  cbv zeta.
  destruct (hookRun_last_render ops cb delay) as (Hinv & Hcb & Hd).
  destruct (hookRun_last_render ops cb (intervalDelay s)) as (Hinv' & _ & Hd').
  split; [exact Hcb|]. split; [|split].
  - unfold hookInv in Hinv. rewrite Hd in Hinv.
    destruct delay as [d|].
    + destruct Hinv as (id & Hl & Hc). exists id. split; [exact Hl|].
      unfold intervalFires. rewrite Hl. simpl. rewrite Nat.eqb_refl. simpl.
      exact Hcb.
    + apply Hinv.
  - unfold hookRun. rewrite fold_left_app. simpl.
    apply runCleanup_empty. apply (hookRun_inv ops unmounted).
    unfold hookInv. simpl. split; reflexivity.
  - unfold hookInv in Hinv'. rewrite Hd' in Hinv'. unfold intervalDelay in *.
    destruct (running s).
    + destruct Hinv' as (id & Hl & _). exists id. exact Hl.
    + apply Hinv'.
Qed.

End UseInterval.

(** ** Whole blocks: the player who never presses, and the one who always does *)

Lemma matchesFrom_snoc (m : list Stimulus -> Z -> Stimulus -> bool) (nb : Z)
  (seen rest : list Stimulus) (x : Stimulus) :
  matchesFrom m nb seen (rest ++ [x]) =
  matchesFrom m nb seen rest
  + (if m (seen ++ rest) (Z.of_nat (List.length (seen ++ rest)) - nb) x
     then 1 else 0).
Proof.
  revert seen. induction rest as [|y rest IH]; intros seen; simpl.
  - rewrite app_nil_r. lia.
  - rewrite IH. rewrite <- app_assoc. simpl. lia.
Qed.

Lemma matchesFrom_bounds (m : list Stimulus -> Z -> Stimulus -> bool) (nb : Z)
  (seen rest : list Stimulus) :
  0 <= matchesFrom m nb seen rest <= Z.of_nat (List.length rest).
Proof.
  revert seen. induction rest as [|y rest IH]; intros seen; simpl List.length; simpl.
  - lia.
  - specialize (IH (seen ++ [y])). destruct (m seen _ y); lia.
Qed.

Lemma posMatchAt_app (str : list Stimulus) (x cur : Stimulus) (k : Z) :
  k < Z.of_nat (List.length str) ->
  posMatchAt (str ++ [x]) k cur = posMatchAt str k cur.
Proof.
  intros Hk. unfold posMatchAt, at_index.
  destruct (k <? 0) eqn:E; [reflexivity|]. apply Z.ltb_ge in E.
  rewrite nth_error_app1 by lia. reflexivity.
Qed.

Lemma sndMatchAt_app (str : list Stimulus) (x cur : Stimulus) (k : Z) :
  k < Z.of_nat (List.length str) ->
  sndMatchAt (str ++ [x]) k cur = sndMatchAt str k cur.
Proof.
  intros Hk. unfold sndMatchAt, at_index.
  destruct (k <? 0) eqn:E; [reflexivity|]. apply Z.ltb_ge in E.
  rewrite nth_error_app1 by lia. reflexivity.
Qed.





Lemma step_tick_trial (w : World) (rp rl : nat) :
  running (ui w) = true -> trialIdx (ui w) < blockLen (ui w) ->
  step w (Tick rp rl) =
    mkWorld (fst (tick (generateNextStimulus rp rl) (ui w)))
            (timers w ++ [MissTimer (ui w) (generateNextStimulus rp rl)]) /\
  fst (tick (generateNextStimulus rp rl) (ui w)) =
    setAllowPressSnd true (setAllowPressPos true
      (setTrialIdx (trialIdx (ui w) + 1)
        (setCurrent (Some (generateNextStimulus rp rl))
          (setStream (stream (ui w) ++ [generateNextStimulus rp rl]) (ui w))))).
Proof.
  intros Hrun Hlt. simpl. unfold tick. rewrite Hrun. simpl.
  replace (blockLen (ui w) <=? trialIdx (ui w)) with false
    by (symmetry; apply Z.leb_gt; exact Hlt).
  split; reflexivity.
Qed.

Lemma step_press_running (w : World) (kind : Kind) :
  running (ui w) = true ->
  step w (Press kind) = mkWorld (handlePress kind (ui w)) (timers w).
Proof. intros H. simpl. rewrite H. reflexivity. Qed.

Lemma answeredInv_trial (w : World) (rp rl : nat) :
  answeredInv w -> trialIdx (ui w) < blockLen (ui w) ->
  let w' := run w [Tick rp rl; Press KPos; Press KSnd; Timeout 0] in
  answeredInv w' /\
  stream (ui w') = stream (ui w) ++ [generateNextStimulus rp rl] /\
  n (ui w') = n (ui w) /\ blockLen (ui w') = blockLen (ui w).
Proof.
  intros (Htm & Hrun & Hn & Hk & Hop & Hos & Hph & Hpf & Hpm & Hsh & Hsf & Hsm) Hlt.
  cbv zeta. set (x := generateNextStimulus rp rl).
  destruct w as [s tms]. cbn [ui timers] in *. subst tms.
  change (run (mkWorld s []) [Tick rp rl; Press KPos; Press KSnd; Timeout 0])
    with (step (step (step (step (mkWorld s []) (Tick rp rl)) (Press KPos))
                     (Press KSnd)) (Timeout 0)).
  destruct (step_tick_trial (mkWorld s []) rp rl Hrun Hlt) as [Et Es].
  fold x in Et, Es. cbn [ui timers app] in Et, Es.
  rewrite Et, Es. clear Et Es.
  set (s1 := setAllowPressSnd true (setAllowPressPos true
               (setTrialIdx (trialIdx s + 1)
                 (setCurrent (Some x) (setStream (stream s ++ [x]) s))))).
  assert (Hpos : pressMatch KPos s1 x
                 = posMatchAt (stream s) (Z.of_nat (List.length (stream s)) - n s) x).
  { unfold pressMatch, s1. simpl. rewrite length_app. simpl List.length.
    replace (Z.of_nat (List.length (stream s) + 1) - 1 - n s)
      with (Z.of_nat (List.length (stream s)) - n s) by lia.
    apply posMatchAt_app. lia. }
  assert (Hsnd : pressMatch KSnd s1 x
                 = sndMatchAt (stream s) (Z.of_nat (List.length (stream s)) - n s) x).
  { unfold pressMatch, s1. simpl. rewrite length_app. simpl List.length.
    replace (Z.of_nat (List.length (stream s) + 1) - 1 - n s)
      with (Z.of_nat (List.length (stream s)) - n s) by lia.
    apply sndMatchAt_app. lia. }
  assert (Hpd : posMissDue (MissTimer s x) = 0).
  { destruct (allowPressPos s) eqn:Ha.
    - apply posMissDue_index. rewrite (Hop eq_refl). simpl. lia.
    - simpl. rewrite Ha. rewrite andb_false_r. reflexivity. }
  assert (Hsd : sndMissDue (MissTimer s x) = 0).
  { destruct (allowPressSnd s) eqn:Ha.
    - apply sndMissDue_index. rewrite (Hos eq_refl). simpl. lia.
    - simpl. rewrite Ha. rewrite andb_false_r. reflexivity. }
  rewrite (step_press_running (mkWorld s1 [MissTimer s x]) KPos Hrun).
  cbn [ui timers].
  rewrite (step_press_running (mkWorld (handlePress KPos s1) [MissTimer s x])
             KSnd Hrun).
  cbn [ui timers].
  rewrite (step_timeout
             (mkWorld (handlePress KSnd (handlePress KPos s1)) [MissTimer s x])
             0%nat (MissTimer s x) eq_refl).
  cbn [ui timers remove_nth fireTimer].
  set (s3 := handlePress KSnd (handlePress KPos s1)).
  destruct (missUpdater_fields s x (tally s3)) as (E1 & E2 & E3 & E4 & E5 & E6).
  assert (Ht3 : tally s3 =
                recordPress KSnd (pressMatch KSnd s1 x)
                  (recordPress KPos (pressMatch KPos s1 x) (tally s))).
  { unfold s3.
    rewrite (handlePress_tally KSnd (handlePress KPos s1) x eq_refl).
    rewrite (handlePress_tally KPos s1 x eq_refl). reflexivity. }
  unfold answeredInv. cbv zeta. cbn [ui timers].
  change (tally (setTally ?t ?u)) with t.
  change (stream (setTally ?t s3)) with (stream s ++ [x]).
  change (n (setTally ?t s3)) with (n s).
  change (trialIdx (setTally ?t s3)) with (trialIdx s + 1).
  change (running (setTally ?t s3)) with (running s).
  change (blockLen (setTally ?t s3)) with (blockLen s).
  change (allowPressPos (setTally ?t s3)) with false.
  change (allowPressSnd (setTally ?t s3)) with false.
  rewrite E1, E2, E3, E4, E5, E6, Hpd, Hsd, Ht3, Hpos, Hsnd.
  unfold posMatchCount, sndMatchCount in *.
  rewrite !matchesFrom_snoc. simpl app.
  rewrite length_app. simpl List.length.
  destruct (posMatchAt (stream s) (Z.of_nat (List.length (stream s)) - n s) x);
    destruct (sndMatchAt (stream s) (Z.of_nat (List.length (stream s)) - n s) x);
    simpl; repeat split; try assumption; try lia; try discriminate.
Qed.

Lemma run_app (w : World) (es1 es2 : list Event) :
  run w (es1 ++ es2) = run (run w es1) es2.
Proof. unfold run. apply fold_left_app. Qed.

Lemma answeredInv_run (draws : list (nat * nat)) (w : World) :
  answeredInv w ->
  trialIdx (ui w) + Z.of_nat (List.length draws) <= blockLen (ui w) ->
  let w' := run w (pressEveryTrial draws) in
  answeredInv w' /\
  stream (ui w') =
    stream (ui w) ++ map (fun d => generateNextStimulus (fst d) (snd d)) draws /\
  n (ui w') = n (ui w) /\ blockLen (ui w') = blockLen (ui w).
Proof.
  revert w. induction draws as [|d draws IH]; intros w Hinv Hlen; cbv zeta.
  - simpl. rewrite app_nil_r. split; [exact Hinv|]. repeat split.
  - simpl List.length in Hlen.
    change (pressEveryTrial (d :: draws))
      with ([Tick (fst d) (snd d); Press KPos; Press KSnd; Timeout 0]
            ++ pressEveryTrial draws).
    rewrite run_app.
    destruct (answeredInv_trial w (fst d) (snd d) Hinv) as (H1 & H2 & H3 & H4);
      [lia|].
    set (w1 := run w [Tick (fst d) (snd d); Press KPos; Press KSnd; Timeout 0]) in *.
    assert (Hk1 : trialIdx (ui w1) = trialIdx (ui w) + 1).
    { destruct H1 as (_ & _ & _ & Hk1 & _). destruct Hinv as (_ & _ & _ & Hk & _).
      rewrite Hk1, H2, Hk, length_app. simpl. lia. }
    destruct (IH w1 H1) as (I1 & I2 & I3 & I4); [lia|].
    split; [exact I1|]. rewrite I2, I3, I4, H2, H3, H4.
    rewrite <- app_assoc. repeat split.
Qed.

(** X23. A player who presses both buttons on every trial, before the
    trial's miss timer expires, is scored correctly.  From a reset of a
    running component with no timer pending, after any number of such
    trials up to the block length, the stream holds the stimuli drawn, the
    hit counters are exactly the numbers of true position and sound matches
    in it, every other trial is a false alarm, and no miss is recorded. *)
Theorem answered_block_counts_matches (w0 : World) (draws : list (nat * nat))
  (Hstart : blockStart w0)
  (Hrun : running (ui w0) = true)
  (Htimers : timers w0 = [])
  (Hlen : Z.of_nat (List.length draws) <= blockLen (ui w0)) :
  let w := run w0 (pressEveryTrial draws) in
  let str := map (fun d => generateNextStimulus (fst d) (snd d)) draws in
  stream (ui w) = str /\
  trialIdx (ui w) = Z.of_nat (List.length draws) /\
  posHits (tally (ui w)) = posMatchCount (n (ui w0)) str /\
  posFalse (tally (ui w)) = trialIdx (ui w) - posMatchCount (n (ui w0)) str /\
  posMisses (tally (ui w)) = 0 /\
  sndHits (tally (ui w)) = sndMatchCount (n (ui w0)) str /\
  sndFalse (tally (ui w)) = trialIdx (ui w) - sndMatchCount (n (ui w0)) str /\
  sndMisses (tally (ui w)) = 0 /\
  timers w = [].
Proof.
  destruct Hstart as (Hk & Hstr & Hcur & Ht & Hn & _).
  assert (H0 : answeredInv w0).
  { unfold answeredInv. cbv zeta. rewrite Hk, Hstr, Ht. simpl.
    repeat split; try assumption; try reflexivity. }
  destruct (answeredInv_run draws w0 H0) as (I1 & I2 & I3 & I4); [lia|].
  cbv zeta. rewrite Hstr in I2. simpl in I2.
  destruct I1 as (Jt & _ & _ & Jk & _ & _ & Jph & Jpf & Jpm & Jsh & Jsf & Jsm).
  rewrite I3, I2 in *. rewrite length_map in Jk.
  repeat split; assumption.
Qed.

Lemma answered_block_counts_matches_witness :
  let w := run (step initialWorld Start)
               (pressEveryTrial [(0, 0); (1, 0); (0, 1); (1, 1)]%nat) in
  posMisses (tally (ui w)) = 0.
Proof.
  cbv zeta.
  refine (proj1 (proj2 (proj2 (proj2 (proj2
            (answered_block_counts_matches (step initialWorld Start)
               [(0, 0); (1, 0); (0, 1); (1, 1)]%nat _ _ _ _)))))).
  - vm_compute. repeat split; discriminate.
  - vm_compute. reflexivity.
  - vm_compute. reflexivity.
  - vm_compute. discriminate.
Defined.
